(** * Trading journal: reconciliation and aggregation core

    A shallow embedding of the deterministic parts of the trading journal
    (the store in [context/Store], the trade history view, the analysis view,
    the manual entry form and the simulated broker sync) together with the
    properties of the specification that concern them.

    Conventions of the embedding.
    - A JavaScript [number] is an exact rational ([Qc]); IEEE rounding, NaN
      and the infinities are not represented.  The one place where the code
      starts from [-Infinity] uses an [option].
    - A string is a [string] of ASCII characters (tickers, broker names,
      strategy labels); [toLowerCase] is ASCII lower-casing and [<] on strings
      is the code-unit order.
    - An object used as a dictionary is an association list in insertion
      order, which is the order [Object.values] and [Object.entries] return
      for keys that are not array indices.  Keys are assumed not to name a
      member of [Object.prototype].
    - The host environment ([Date], [parseFloat], number printing) is a class
      of functions, [Host]; randomness, the clock and the results of awaited
      calls are explicit arguments. *)

From Stdlib Require Import QArith Qcanon Qround.
From Stdlib Require Import Sorting.Sorted Strings.Ascii.
From stdpp Require Import base decidable option numbers list strings pretty gmap.

Local Open Scope Qc_scope.

(** ** Numbers *)

Abbreviation number := Qc.

Definition num_of_Z (z : Z) : number := Q2Qc (inject_Z z).
Definition num_of_nat (n : nat) : number := num_of_Z (Z.of_nat n).

(** [Math.floor]. *)
Definition Math_floor (x : number) : Z := Qfloor x.


(** [x.toFixed(d)] read back as a number: [x] rounded to [d] decimals, a tie
    going away from zero ([toFixed] prints the sign and rounds the absolute
    value). *)
Definition pow10 (d : nat) : number := num_of_Z (10 ^ Z.of_nat d).

Definition toFixed (d : nat) (x : number) : number :=
  let r (y : number) := num_of_Z (Math_floor (y * pow10 d + Q2Qc (1 # 2))) / pow10 d in
  if decide (x < 0) then - r (- x) else r x.

Definition sum_with {A} (f : A → number) (l : list A) : number :=
  foldr (λ x s, f x + s) 0 l.

(** ** Data model ([types.ts]) *)

Inductive BrokerName := Zerodha | Fyers | Dhan | AngelOne.
Inductive Segment := Equity | FnO.
Inductive ProductType := Intraday | Delivery.

Global Instance BrokerName_eq_dec : EqDecision BrokerName.
Proof. solve_decision. Defined.
Global Instance Segment_eq_dec : EqDecision Segment.
Proof. solve_decision. Defined.
Global Instance ProductType_eq_dec : EqDecision ProductType.
Proof. solve_decision. Defined.

Definition BrokerName_str (b : BrokerName) : string :=
  match b with
  | Zerodha => "Zerodha" | Fyers => "Fyers" | Dhan => "Dhan" | AngelOne => "Angel One"
  end.

Definition ProductType_str (p : ProductType) : string :=
  match p with Intraday => "Intraday" | Delivery => "Delivery" end.

Module Trade.
Record t := mk {
  id : string;
  date : string;
  symbol : string;
  broker : BrokerName;
  entryPrice : number;
  exitPrice : number;
  quantity : number;
  pnl : number;
  segment : Segment;
  productType : option ProductType;
  confidence : number;
  strategy : string;
  notes : string;
  mistake : option string;
  aiAnalysis : option string
}.
End Trade.

Global Instance Trade_eq_dec : EqDecision Trade.t.
Proof. solve_decision. Defined.

Module GroupedTrade.
Record t := mk {
  id : string;
  date : string;
  symbol : string;
  broker : string;
  totalPnL : number;
  totalQty : number;
  trades : list Trade.t
}.
End GroupedTrade.

(** [BrokerName | 'N/A'] *)
Inductive BestBroker := NA | Best (b : BrokerName).

Module Metrics.
Record t := mk {
  totalPnL : number;
  winRate : number;
  avgTradeValue : number;
  totalTrades : number;
  tradesToday : number;
  bestBroker : BestBroker
}.
End Metrics.

(** ** Host environment *)

(** A [Date] object is its time value in milliseconds, [None] for an invalid
    date (time value NaN). *)
Definition JsDate := option number.

Class Host := {
  (** [new Date(s)] *)
  parseDate : string → JsDate;
  (** [d.toDateString()], the local calendar day *)
  toDateString : JsDate → string;
  (** [d.toISOString()] of a valid date *)
  toISOString : number → string;
  (** [parseFloat(s)] and [parseInt(s)] of a validated numeric form field *)
  parseFloat : string → number;
  parseInt : string → number;
  (** the decimal string of a number, as in a template literal *)
  showNumber : number → string
}.

(** ** Strings *)

Fixpoint map_string (f : ascii → ascii) (s : string) : string :=
  match s with
  | EmptyString => EmptyString
  | String c s' => String (f c) (map_string f s')
  end.

Definition lower_ascii (c : ascii) : ascii :=
  let n := N_of_ascii c in
  if ((65 <=? n) && (n <=? 90))%N then ascii_of_N (n + 32) else c.

Definition upper_ascii (c : ascii) : ascii :=
  let n := N_of_ascii c in
  if ((97 <=? n) && (n <=? 122))%N then ascii_of_N (n - 32) else c.

Definition toLowerCase : string → string := map_string lower_ascii.
Definition toUpperCase : string → string := map_string upper_ascii.

(** [!s] for a string that may be absent: [undefined] and [''] are falsy. *)
Definition falsy_str (s : option string) : bool :=
  match s with None => true | Some s => bool_decide (s = "") end.

(** ** Manual journal entry ([NewTrade.handleSubmit]) *)

Module FormData.
Record t := mk {
  broker : BrokerName;
  symbol : string;
  entryPrice : string;
  exitPrice : string;
  quantity : string;
  segment : Segment;
  confidence : number;
  strategy : string;
  notes : string;
  mistake : string
}.
End FormData.

Section Entry.
Context `{Host}.

(** The trade built by [handleSubmit] from the form, the clock reading
    [now] and the feedback [analysis] returned by [analyzeTrade]. *)
Definition handleSubmit (formData : FormData.t) (now : number) (analysis : string)
  : Trade.t :=
  let entry := parseFloat (FormData.entryPrice formData) in
  let exit := parseFloat (FormData.exitPrice formData) in
  let qty := parseInt (FormData.quantity formData) in
  let pnl := (exit - entry) * qty in
  {| Trade.id := showNumber now;
     Trade.date := toISOString now;
     Trade.symbol := toUpperCase (FormData.symbol formData);
     Trade.broker := FormData.broker formData;
     Trade.entryPrice := entry;
     Trade.exitPrice := exit;
     Trade.quantity := qty;
     Trade.pnl := pnl;
     Trade.segment := FormData.segment formData;
     Trade.productType := None;
     Trade.confidence := FormData.confidence formData;
     Trade.strategy := FormData.strategy formData;
     Trade.notes := FormData.notes formData;
     Trade.mistake := Some (FormData.mistake formData);
     Trade.aiAnalysis := Some analysis |}.

(** ** Simulated broker sync ([fetchTradesFromBroker]) *)

Record BrokerConfig := {
  clientId : option string;
  accessToken : option string;
  apiKey : option string
}.

(** The values one iteration of the loop reads from its environment: the
    successive results of [Math.random()] and of [Date.now()]. *)
Record Draw := {
  r_win : number;
  r_symbol : number;
  r_entry : number;
  r_qty : number;
  r_date : number;
  d_now : number
}.

Definition symbols : list string :=
  ["RELIANCE"; "TCS"; "INFY"; "HDFCBANK"; "ICICIBANK"; "SBIN"; "TATAMOTORS"; "BAJFINANCE"].

Definition getRandomSymbol (r : number) : string :=
  default "" (symbols !! Z.to_nat (Math_floor (r * num_of_nat (length symbols)))).

Definition mockTrade (brokerName : BrokerName) (now : number) (i : nat) (d : Draw)
  : Trade.t :=
  let isWin := bool_decide (Q2Qc (4 # 10) < r_win d) in
  let symbol := getRandomSymbol (r_symbol d) in
  let entry := num_of_Z (Math_floor (r_entry d * num_of_Z 1000)) + num_of_Z 100 in
  let exit := if isWin then entry * Q2Qc (105 # 100) else entry * Q2Qc (95 # 100) in
  let qty := num_of_Z (Math_floor (r_qty d * num_of_Z 50)) + num_of_Z 10 in
  {| Trade.id := "api-" +:+ BrokerName_str brokerName +:+ "-" +:+ showNumber (d_now d)
                 +:+ "-" +:+ showNumber (num_of_nat i);
     Trade.date :=
       toISOString (now - num_of_Z (Math_floor (r_date d * num_of_Z 86400000)));
     Trade.symbol := symbol;
     Trade.broker := brokerName;
     Trade.entryPrice := toFixed 2 entry;
     Trade.exitPrice := toFixed 2 exit;
     Trade.quantity := qty;
     Trade.pnl := toFixed 2 ((exit - entry) * qty);
     Trade.segment := Equity;
     Trade.productType := None;
     Trade.confidence := num_of_Z 5;
     Trade.strategy := "Manual";
     Trade.notes := "Auto-synced from " +:+ BrokerName_str brokerName +:+ " API";
     Trade.mistake := Some "";
     Trade.aiAnalysis := Some "" |}.

(** [r_count] is the draw that fixes the number of trades, [draws i] the
    environment of iteration [i].  [inl] is the thrown error. *)
Definition fetchTradesFromBroker (brokerName : BrokerName) (config : BrokerConfig)
    (now r_count : number) (draws : nat → Draw) : string + list Trade.t :=
  if falsy_str (accessToken config) then
    inl "Access Token is missing. Please configure the broker API."
  else
    let count := Z.to_nat (Math_floor (r_count * num_of_Z 3) + 1) in
    inr ((λ i, mockTrade brokerName now i (draws i)) <$> seq 0 count).
End Entry.

(** ** Objects used as dictionaries *)

Section Dict.
Context {K V : Type} `{EqDecision K}.

(** Entries in insertion order. *)
Definition Dict := list (K * V).

(** [d[k]], [None] for [undefined] *)
Fixpoint dict_get (k : K) (d : Dict) : option V :=
  match d with
  | [] => None
  | (k', v) :: d' => if decide (k = k') then Some v else dict_get k d'
  end.

(** [d[k] = v]: an existing key keeps its place, a new one goes last. *)
Fixpoint dict_set (k : K) (v : V) (d : Dict) : Dict :=
  match d with
  | [] => [(k, v)]
  | (k', v') :: d' =>
      if decide (k = k') then (k, v) :: d' else (k', v') :: dict_set k v d'
  end.

Definition Object_entries (d : Dict) : list (K * V) := d.
Definition Object_values (d : Dict) : list V := d.*2.
Definition Object_keys (d : Dict) : list K := d.*1.
End Dict.

Global Arguments Dict : clear implicits.

(** ** [Array.prototype.sort] *)

(** The sort is stable; for a comparator that is a consistent ordering every
    stable sort returns the same array, here computed by insertion. *)
Section ArraySort.
Context {A : Type} (cmp : A → A → number).

Fixpoint sort_insert (x : A) (l : list A) : list A :=
  match l with
  | [] => [x]
  | y :: l' => if decide (cmp x y ≤ 0) then x :: y :: l' else y :: sort_insert x l'
  end.

Definition Array_sort (l : list A) : list A := foldr sort_insert [] l.
End ArraySort.

(** ** Trade history: filter, group, sort ([TradeHistory.groupedTrades]) *)

(** ['All' | A] *)
Inductive Filter (A : Type) := All | Only (a : A).
Global Arguments All {A}.
Global Arguments Only {A} a.

Record Filters := {
  filterBroker : Filter BrokerName;
  filterSegment : Filter Segment;
  filterStrategy : string;
  filterProductType : string
}.

Inductive SortField := sf_date | sf_symbol | sf_broker | sf_totalPnL | sf_totalQty.
Inductive SortDirection := asc | desc.

Global Instance SortField_eq_dec : EqDecision SortField.
Proof. solve_decision. Defined.
Global Instance SortDirection_eq_dec : EqDecision SortDirection.
Proof. solve_decision. Defined.

(** The values a sort key can take: a number, NaN, a string. *)
Inductive JsVal := VNum (n : number) | VNaN | VStr (s : string).

(** [a < b] on two values of the same type; any comparison with NaN is false. *)
Definition js_lt (a b : JsVal) : bool :=
  match a, b with
  | VNum x, VNum y => bool_decide (x < y)
  | VStr s, VStr t => String.ltb s t
  | _, _ => false
  end.

Definition is_string (v : JsVal) : bool :=
  match v with VStr _ => true | _ => false end.

Definition val_toLowerCase (v : JsVal) : JsVal :=
  match v with VStr s => VStr (toLowerCase s) | _ => v end.

(** [d.getTime()] *)
Definition getTime (d : JsDate) : JsVal :=
  match d with Some ms => VNum ms | None => VNaN end.

(** [flt !== 'All' && a !== flt] *)
Definition differs {A} `{EqDecision A} (flt : Filter A) (a : A) : bool :=
  match flt with All => false | Only x => bool_decide (a ≠ x) end.

Definition differs_str (flt : string) (s : string) : bool :=
  bool_decide (flt ≠ "All") && bool_decide (s ≠ flt).

Section TradeHistory.
Context `{Host}.

(** The predicate of step 1. *)
Definition keepTrade (f : Filters) (t : Trade.t) : bool :=
  if differs (filterBroker f) (Trade.broker t) then false
  else if differs (filterSegment f) (Trade.segment t) then false
  else if differs_str (filterStrategy f) (Trade.strategy t) then false
  else if differs_str (filterProductType f)
            (ProductType_str (default Delivery (Trade.productType t))) then false
  else true.

Definition filteredTrades (f : Filters) (trades : list Trade.t) : list Trade.t :=
  filter (λ t, keepTrade f t = true) trades.

(** [`${dateKey}_${trade.symbol}_${trade.broker}`] *)
Definition groupKey (trade : Trade.t) : string :=
  let dateKey := toDateString (parseDate (Trade.date trade)) in
  dateKey +:+ "_" +:+ Trade.symbol trade +:+ "_" +:+ BrokerName_str (Trade.broker trade).

(** The body of the [forEach] of step 2. *)
Definition addToGroups (groups : Dict string GroupedTrade.t) (trade : Trade.t)
  : Dict string GroupedTrade.t :=
  let groupKey := groupKey trade in
  let groups :=
    match dict_get groupKey groups with
    | None =>
        dict_set groupKey
          {| GroupedTrade.id := groupKey;
             GroupedTrade.date := Trade.date trade;
             GroupedTrade.symbol := Trade.symbol trade;
             GroupedTrade.broker := BrokerName_str (Trade.broker trade);
             GroupedTrade.totalPnL := 0;
             GroupedTrade.totalQty := 0;
             GroupedTrade.trades := [] |} groups
    | Some _ => groups
    end in
  match dict_get groupKey groups with
  | Some g =>
      dict_set groupKey
        {| GroupedTrade.id := GroupedTrade.id g;
           GroupedTrade.date := GroupedTrade.date g;
           GroupedTrade.symbol := GroupedTrade.symbol g;
           GroupedTrade.broker := GroupedTrade.broker g;
           GroupedTrade.totalPnL := GroupedTrade.totalPnL g + Trade.pnl trade;
           GroupedTrade.totalQty := GroupedTrade.totalQty g + Trade.quantity trade;
           GroupedTrade.trades := GroupedTrade.trades g ++ [trade] |} groups
  | None => groups
  end.

Definition groupTrades (filteredTrades : list Trade.t) : list GroupedTrade.t :=
  Object_values (foldl addToGroups [] filteredTrades).

(** [a[sortField]] *)
Definition fieldOf (sortField : SortField) (a : GroupedTrade.t) : JsVal :=
  match sortField with
  | sf_date => VStr (GroupedTrade.date a)
  | sf_symbol => VStr (GroupedTrade.symbol a)
  | sf_broker => VStr (GroupedTrade.broker a)
  | sf_totalPnL => VNum (GroupedTrade.totalPnL a)
  | sf_totalQty => VNum (GroupedTrade.totalQty a)
  end.

(** The comparator of step 3. *)
Definition compareGroups (sortField : SortField) (sortDirection : SortDirection)
    (a b : GroupedTrade.t) : number :=
  let valA := fieldOf sortField a in
  let valB := fieldOf sortField b in
  let '(valA, valB) :=
    if decide (sortField = sf_date)
    then (getTime (parseDate (GroupedTrade.date a)),
          getTime (parseDate (GroupedTrade.date b)))
    else (valA, valB) in
  let '(valA, valB) :=
    if is_string valA then (val_toLowerCase valA, val_toLowerCase valB)
    else (valA, valB) in
  if js_lt valA valB then (if decide (sortDirection = asc) then - 1 else 1)
  else if js_lt valB valA then (if decide (sortDirection = asc) then 1 else - 1)
  else 0.

Definition groupedTrades (f : Filters) (sortField : SortField)
    (sortDirection : SortDirection) (trades : list Trade.t) : list GroupedTrade.t :=
  let filteredTrades := filteredTrades f trades in
  let groupArray := groupTrades filteredTrades in
  Array_sort (compareGroups sortField sortDirection) groupArray.
End TradeHistory.

(** ** The store ([context/Store]) *)

(** [pnl > maxPnL], where [maxPnL] starts at [-Infinity] ([None]). *)
Definition exceeds (pnl : number) (maxPnL : option number) : bool :=
  match maxPnL with None => true | Some m => bool_decide (m < pnl) end.

Section Store.
Context `{Host}.

(** The per-broker totals built by the [forEach] of [getMetrics]. *)
Definition brokerPnL (trades : list Trade.t) : Dict BrokerName number :=
  foldl (λ brokerPnL t,
           dict_set (Trade.broker t)
             (default 0 (dict_get (Trade.broker t) brokerPnL) + Trade.pnl t) brokerPnL)
        [] trades.

(** The scan of [Object.entries(brokerPnL)]; the state is
    [(bestBroker, maxPnL)]. *)
Definition bestOf (entries : list (BrokerName * number)) : BestBroker * option number :=
  foldl (λ '(bestBroker, maxPnL) '(broker, pnl),
           if exceeds pnl maxPnL then (Best broker, Some pnl) else (bestBroker, maxPnL))
        (NA, None) entries.

(** [getMetrics], called when the clock reads [now]. *)
Definition getMetrics (now : number) (trades : list Trade.t) : Metrics.t :=
  let totalPnL := foldl (λ acc t, acc + Trade.pnl t) 0 trades in
  let winningTrades := filter (λ t, 0 < Trade.pnl t) trades in
  let winRate :=
    if decide (0 < length trades)%nat
    then num_of_nat (length winningTrades) / num_of_nat (length trades) * num_of_Z 100
    else 0 in
  let avgTradeValue :=
    if decide (0 < length trades)%nat then totalPnL / num_of_nat (length trades) else 0 in
  let today := toDateString (Some now) in
  let tradesToday :=
    length (filter (λ t, toDateString (parseDate (Trade.date t)) = today) trades) in
  let brokerPnL := brokerPnL trades in
  let bestBroker := (bestOf (Object_entries brokerPnL)).1 in
  {| Metrics.totalPnL := totalPnL;
     Metrics.winRate := winRate;
     Metrics.avgTradeValue := avgTradeValue;
     Metrics.totalTrades := num_of_nat (length trades);
     Metrics.tradesToday := num_of_nat tradesToday;
     Metrics.bestBroker := bestBroker |}.
End Store.

(** The state updates of the store take the outcome of the awaited database
    call as [db_ok]; when it fails the [catch] leaves the state as it was. *)


(** [importTrades]: the new trades first, then the whole list by date, latest
    first.  The comparator subtracts two time values; for a date that does
    not parse the difference is NaN, which the sort reads as 0. *)
Definition byDateDesc `{Host} (a b : Trade.t) : number :=
  match parseDate (Trade.date b), parseDate (Trade.date a) with
  | Some tb, Some ta => tb - ta
  | _, _ => 0
  end.

Definition importTrades `{Host} (db_ok : bool) (newTrades : list Trade.t)
    (prev : list Trade.t) : list Trade.t :=
  if db_ok then Array_sort byDateDesc (newTrades ++ prev) else prev.

(** [updateTrade] *)
Definition updateTrade (db_ok : bool) (trade : Trade.t) (prev : list Trade.t)
  : list Trade.t :=
  if db_ok
  then (λ t, if decide (Trade.id t = Trade.id trade) then trade else t) <$> prev
  else prev.

(** [new Map(updatedTrades.map(t => [t.id, t]))]: a later entry replaces an
    earlier one with the same key. *)
Definition updatesMap (updatedTrades : list Trade.t) : gmap string Trade.t :=
  foldl (λ m t, <[Trade.id t := t]> m) ∅ updatedTrades.

(** [updateTradesBulk] *)
Definition updateTradesBulk (db_ok : bool) (updatedTrades : list Trade.t)
    (prev : list Trade.t) : list Trade.t :=
  if db_ok
  then
    let updatesMap := updatesMap updatedTrades in
    (λ t, default t (updatesMap !! Trade.id t)) <$> prev
  else prev.

(** *** The strategy list *)

(** The in-memory list and the record ['user_strategies'] of the database
    ([None] while nothing was saved). *)
Record StrategyState := {
  strategies : list string;
  stored : option (list string)
}.

Definition defaultStrategies : list string :=
  ["Manual"; "Trend-Following"; "Mean-Reversion"; "Breakout"].

(** [db.getStrategies] *)
Definition getStrategies (st : StrategyState) : list string :=
  default defaultStrategies (stored st).

(** The provider as mounted: [useState([])]. *)
Definition mount (st : StrategyState) : StrategyState :=
  {| strategies := []; stored := stored st |}.

(** [loadData], when the reads succeed. *)
Definition loadData (st : StrategyState) : StrategyState :=
  {| strategies := getStrategies st; stored := stored st |}.

(** [addStrategy]; [db_ok] is the outcome of [db.saveStrategies]. *)
Definition addStrategy (db_ok : bool) (strategy : string) (st : StrategyState)
  : StrategyState :=
  if bool_decide (strategy ∈ strategies st) then st
  else
    let newStrategies := strategies st ++ [strategy] in
    {| strategies := newStrategies;
       stored := if db_ok then Some newStrategies else stored st |}.

Definition initialState : StrategyState := {| strategies := []; stored := None |}.

Inductive strategy_step : StrategyState → StrategyState → Prop :=
  | step_mount st : strategy_step st (mount st)
  | step_load st : strategy_step st (loadData st)
  | step_add db_ok strategy st : strategy_step st (addStrategy db_ok strategy st).

(** ** Analysis view ([Analysis]) *)

Module StrategyStat.
Record t := mk {
  name : string;
  wins : number;
  total : number;
  totalPnL : number;
  totalConfidence : number
}.
End StrategyStat.

Module ChartDatum.
(** [avgConfidence] is the decimal string [toFixed(1)] prints, kept as its
    value. *)
Record t := mk {
  name : string;
  winRate : number;
  avgConfidence : number;
  totalPnL : number
}.
End ChartDatum.

Module SymbolStatRaw.
Record t := mk {
  symbol : string;
  pnl : number;
  wins : number;
  total : number
}.
End SymbolStatRaw.

Module SymbolStat.
Record t := mk {
  symbol : string;
  pnl : number;
  wins : number;
  total : number;
  winRate : number
}.
End SymbolStat.







(** ** A concrete host

    A host whose time zone is UTC, for running the definitions on examples.
    It reads dates in the format [toISOString] prints, and decimal numbers
    without exponent. *)

Module UtcHost.
Local Open Scope Z_scope.

Definition digit (c : ascii) : option Z :=
  let n := Z.of_N (N_of_ascii c) in
  if (48 <=? n) && (n <=? 57) then Some (n - 48) else None.

Fixpoint digits_from (acc : Z) (s : string) : option Z :=
  match s with
  | EmptyString => Some acc
  | String c s' => d ← digit c; digits_from (10 * acc + d) s'
  end.

Definition digits (s : string) : option Z :=
  if bool_decide (s = "") then None else digits_from 0 s.

(** Days since 1970-01-01 of a civil date, and back. *)
Definition days_from_civil (y m d : Z) : Z :=
  let y := if m <=? 2 then y - 1 else y in
  let era := y / 400 in
  let yoe := y - era * 400 in
  let doy := (153 * (if 2 <? m then m - 3 else m + 9) + 2) / 5 + d - 1 in
  let doe := yoe * 365 + yoe / 4 - yoe / 100 + doy in
  era * 146097 + doe - 719468.

Definition civil_from_days (z : Z) : Z * Z * Z :=
  let z := z + 719468 in
  let era := z / 146097 in
  let doe := z - era * 146097 in
  let yoe := (doe - doe / 1460 + doe / 36524 - doe / 146096) / 365 in
  let y := yoe + era * 400 in
  let doy := doe - (365 * yoe + yoe / 4 - yoe / 100) in
  let mp := (5 * doy + 2) / 153 in
  let d := doy - (153 * mp + 2) / 5 + 1 in
  let m := if mp <? 10 then mp + 3 else mp - 9 in
  (if m <=? 2 then y + 1 else y, m, d).

Definition msPerDay : Z := 86400000.

Definition parseISO (s : string) : option Z :=
  if bool_decide (String.length s = 24%nat ∧ String.substring 23 1 s = "Z") then
    y ← digits (String.substring 0 4 s); m ← digits (String.substring 5 2 s);
    d ← digits (String.substring 8 2 s); hh ← digits (String.substring 11 2 s);
    mm ← digits (String.substring 14 2 s); ss ← digits (String.substring 17 2 s);
    ms ← digits (String.substring 20 3 s);
    Some (days_from_civil y m d * msPerDay + ((hh * 60 + mm) * 60 + ss) * 1000 + ms)
  else None.

Definition pad (width : nat) (z : Z) : string :=
  let s := pretty z in
  String.concat "" (replicate (width - String.length s) "0") +:+ s.

Definition dayNames : list string := ["Sun"; "Mon"; "Tue"; "Wed"; "Thu"; "Fri"; "Sat"].
Definition monthNames : list string :=
  ["Jan"; "Feb"; "Mar"; "Apr"; "May"; "Jun"; "Jul"; "Aug"; "Sep"; "Oct"; "Nov"; "Dec"].

Definition dateString (ms : Z) : string :=
  let days := ms / msPerDay in
  let '(y, m, d) := civil_from_days days in
  default "" (dayNames !! Z.to_nat ((days + 4) mod 7)) +:+ " " +:+
  default "" (monthNames !! Z.to_nat (m - 1)) +:+ " " +:+ pad 2 d +:+ " " +:+ pad 4 y.

Definition isoString (ms : Z) : string :=
  let days := ms / msPerDay in
  let t := ms mod msPerDay in
  let '(y, m, d) := civil_from_days days in
  pad 4 y +:+ "-" +:+ pad 2 m +:+ "-" +:+ pad 2 d +:+ "T" +:+
  pad 2 (t / 3600000) +:+ ":" +:+ pad 2 (t / 60000 mod 60) +:+ ":" +:+
  pad 2 (t / 1000 mod 60) +:+ "." +:+ pad 3 (t mod 1000) +:+ "Z".

(** An optional sign, digits, and an optional fraction. *)
Fixpoint split_dot (s : string) : string * option string :=
  match s with
  | EmptyString => (EmptyString, None)
  | String c s' =>
      if bool_decide (c = "."%char) then (EmptyString, Some s')
      else let '(a, b) := split_dot s' in (String c a, b)
  end.

Definition parseDecimal (s : string) : number :=
  let '(neg, s) :=
    match s with
    | String "-"%char s' => (true, s')
    | _ => (false, s)
    end in
  let '(ip, fp) := split_dot s in
  let i := default 0 (digits ip) in
  let fp := default "" fp in
  let f := default 0 (digits fp) in
  let x := (num_of_Z i + num_of_Z f / num_of_Z (10 ^ Z.of_nat (String.length fp)))%Qc in
  if neg then (- x)%Qc else x.

Definition parseInteger (s : string) : number :=
  let '(neg, s) :=
    match s with
    | String "-"%char s' => (true, s')
    | _ => (false, s)
    end in
  let i := num_of_Z (default 0 (digits (split_dot s).1)) in
  if neg then (- i)%Qc else i.

(** Numbers are printed by their integer part, which is all that
    identifiers are built from. *)
Definition host : Host := {|
  parseDate s := num_of_Z <$> parseISO s;
  toDateString d :=
    match d with Some ms => dateString (Math_floor ms) | None => "Invalid Date" end;
  toISOString ms := isoString (Math_floor ms);
  parseFloat := parseDecimal;
  parseInt := parseInteger;
  showNumber x := pretty (Math_floor x)
|}.
End UtcHost.

(** ** Definitions used to state the properties *)


(** The reducers of the program (groups, per-strategy and per-symbol
    statistics, per-broker totals) have one shape: look the key of the item
    up, create the entry on a miss, and update it. *)
Section BucketDef.
Context {K V T : Type} `{EqDecision K}.
Context (key : T → K) (init : T → V) (step : V → T → V).

Definition bucket (acc : Dict K V) (t : T) : Dict K V :=
  dict_set (key t) (step (default (init t) (dict_get (key t) acc)) t) acc.

Definition buckets (l : list T) : Dict K V := foldl bucket [] l.
End BucketDef.

(** The filters as the view starts. *)
Definition noFilters : Filters :=
  {| filterBroker := All; filterSegment := All;
     filterStrategy := "All"; filterProductType := "All" |}.

Section GroupDef.
Context `{Host}.

Definition initGroup (trade : Trade.t) : GroupedTrade.t :=
  {| GroupedTrade.id := groupKey trade;
     GroupedTrade.date := Trade.date trade;
     GroupedTrade.symbol := Trade.symbol trade;
     GroupedTrade.broker := BrokerName_str (Trade.broker trade);
     GroupedTrade.totalPnL := 0;
     GroupedTrade.totalQty := 0;
     GroupedTrade.trades := [] |}.

Definition stepGroup (g : GroupedTrade.t) (trade : Trade.t) : GroupedTrade.t :=
  {| GroupedTrade.id := GroupedTrade.id g;
     GroupedTrade.date := GroupedTrade.date g;
     GroupedTrade.symbol := GroupedTrade.symbol g;
     GroupedTrade.broker := GroupedTrade.broker g;
     GroupedTrade.totalPnL := GroupedTrade.totalPnL g + Trade.pnl trade;
     GroupedTrade.totalQty := GroupedTrade.totalQty g + Trade.quantity trade;
     GroupedTrade.trades := GroupedTrade.trades g ++ [trade] |}.
End GroupDef.



(** The number of trades with [pnl > 0]; a trade with [pnl] zero or negative
    adds nothing. *)
Fixpoint winCount (trades : list Trade.t) : nat :=
  match trades with
  | [] => 0
  | t :: trades' =>
      match (Trade.pnl t ?= 0)%Qc with
      | Gt => S (winCount trades')
      | Eq | Lt => winCount trades'
      end
  end.

(** Choosing a product type in the filter bar. *)
Definition setFilterProductType (value : string) (f : Filters) : Filters :=
  {| filterBroker := filterBroker f; filterSegment := filterSegment f;
     filterStrategy := filterStrategy f; filterProductType := value |}.

(** Both the list in memory and the list in the database are free of
    duplicates. *)
Definition strategies_distinct (st : StrategyState) : Prop :=
  NoDup (strategies st) ∧ ∀ l, stored st = Some l → NoDup l.

(** Example trades. *)
Definition exampleTrade (id date symbol : string) (broker : BrokerName)
    (entryPrice exitPrice quantity : Z) : Trade.t :=
  {| Trade.id := id; Trade.date := date; Trade.symbol := symbol; Trade.broker := broker;
     Trade.entryPrice := num_of_Z entryPrice; Trade.exitPrice := num_of_Z exitPrice;
     Trade.quantity := num_of_Z quantity;
     Trade.pnl := num_of_Z ((exitPrice - entryPrice) * quantity);
     Trade.segment := Equity; Trade.productType := None;
     Trade.confidence := num_of_Z 5; Trade.strategy := "Manual";
     Trade.notes := ""; Trade.mistake := None; Trade.aiAnalysis := None |}.







(** The result of the comparator for a comparison of the two keys. *)
Definition cmp_sign (dir : SortDirection) (c : comparison) : number :=
  match c, dir with
  | Eq, _ => 0
  | Lt, asc | Gt, desc => - 1
  | Lt, desc | Gt, asc => 1
  end.

(** [x] may stand before [y] in the direction [dir]. *)
Definition ordered {A} (dir : SortDirection) (le : A → A → Prop) (x y : A) : Prop :=
  match dir with asc => le x y | desc => le y x end.

(** The code-unit order on strings. *)
Definition str_le (s t : string) : Prop := String.leb s t = true.

Section InstantDef.
Context `{Host}.

(** The instant of the date of a group, for a date that parses. *)
Definition instant (g : GroupedTrade.t) : number :=
  default 0 (parseDate (GroupedTrade.date g)).

Definition validDate (g : GroupedTrade.t) : Prop :=
  is_Some (parseDate (GroupedTrade.date g)).
End InstantDef.

(** A list of groups is in the order of the lower-cased [text]. *)
Definition textSorted (dir : SortDirection) (text : GroupedTrade.t → string)
    (l : list GroupedTrade.t) : Prop :=
  StronglySorted
    (λ a b, ordered dir str_le (toLowerCase (text a)) (toLowerCase (text b))) l.

(** Three trades: two of one day, symbol and broker, and one of the next
    day with a symbol in lower case; the two brokers have the same total. *)
Definition exampleBook : list Trade.t :=
  [ exampleTrade "1" "2024-01-15T09:00:00.000Z" "TCS" Zerodha 100 110 10;
    exampleTrade "2" "2024-01-15T11:00:00.000Z" "TCS" Zerodha 110 100 5;
    exampleTrade "3" "2024-01-16T09:00:00.000Z" "infy" Dhan 200 210 5 ].

(** ** The brokers of the store ([context/Store]) *)

Module BrokerStatus.
Record t := mk {
  name : BrokerName;
  isConnected : bool;
  lastSync : option string;
  apiConfig : option BrokerConfig
}.
End BrokerStatus.

Definition INITIAL_BROKERS_DEFAULT : list BrokerStatus.t :=
  (λ name, {| BrokerStatus.name := name; BrokerStatus.isConnected := false;
              BrokerStatus.lastSync := None; BrokerStatus.apiConfig := None |})
  <$> [Zerodha; Fyers; Dhan; AngelOne].

(** [brokers.find(b => b.name === name)] *)
Definition findBroker (name : BrokerName) (brokers : list BrokerStatus.t)
  : option BrokerStatus.t :=
  snd <$> list_find (λ b, BrokerStatus.name b = name) brokers.

(** The merge of [loadData]: the default list, each entry replaced by the
    saved one of the same name; it is applied when something was saved. *)
Definition mergeBrokers (savedBrokers : list BrokerStatus.t) : list BrokerStatus.t :=
  (λ def, default def (findBroker (BrokerStatus.name def) savedBrokers))
  <$> INITIAL_BROKERS_DEFAULT.

Definition loadBrokers (savedBrokers brokers : list BrokerStatus.t)
  : list BrokerStatus.t :=
  if decide (0 < length savedBrokers)%nat then mergeBrokers savedBrokers else brokers.

(** [toggleBroker]; [now] is [new Date().toLocaleString()]. *)
Definition toggleBroker (now : string) (name : BrokerName)
    (brokers : list BrokerStatus.t) : list BrokerStatus.t :=
  (λ b, if decide (BrokerStatus.name b = name)
        then {| BrokerStatus.name := BrokerStatus.name b;
                BrokerStatus.isConnected := negb (BrokerStatus.isConnected b);
                BrokerStatus.lastSync :=
                  if negb (BrokerStatus.isConnected b) then Some now else None;
                BrokerStatus.apiConfig := BrokerStatus.apiConfig b |}
        else b) <$> brokers.

(** [updateBrokerConfig] *)
Definition updateBrokerConfig (name : BrokerName) (config : BrokerConfig)
    (brokers : list BrokerStatus.t) : list BrokerStatus.t :=
  (λ b, if decide (BrokerStatus.name b = name)
        then {| BrokerStatus.name := BrokerStatus.name b;
                BrokerStatus.isConnected := BrokerStatus.isConnected b;
                BrokerStatus.lastSync := BrokerStatus.lastSync b;
                BrokerStatus.apiConfig := Some config |}
        else b) <$> brokers.

(** [db.saveBroker]: the object store is keyed by [name]. *)
Definition saveBroker (broker : BrokerStatus.t)
    (savedBrokers : Dict BrokerName BrokerStatus.t) : Dict BrokerName BrokerStatus.t :=
  dict_set (BrokerStatus.name broker) broker savedBrokers.

(** [syncBroker]: the brokers and the trades after the call, or the error it
    throws.  [now] and [r_count], [draws] go to [fetchTradesFromBroker],
    [nowString] is [new Date().toLocaleString()] after the import, [db_ok]
    the outcome of the write inside [importTrades]. *)
Definition syncBroker `{Host} (db_ok : bool) (name : BrokerName) (now r_count : number)
    (draws : nat → Draw) (nowString : string)
    (brokers : list BrokerStatus.t) (trades : list Trade.t)
  : string + list BrokerStatus.t * list Trade.t :=
  match findBroker name brokers with
  | None => inl "Broker not configured"
  | Some broker =>
      match BrokerStatus.apiConfig broker with
      | None => inl "Broker not configured"
      | Some apiConfig =>
          match fetchTradesFromBroker name apiConfig now r_count draws with
          | inl error => inl error
          | inr newTrades =>
              if decide (0 < length newTrades)%nat then
                inr ((λ b, if decide (BrokerStatus.name b = name)
                           then {| BrokerStatus.name := BrokerStatus.name b;
                                   BrokerStatus.isConnected := BrokerStatus.isConnected b;
                                   BrokerStatus.lastSync := Some nowString;
                                   BrokerStatus.apiConfig := BrokerStatus.apiConfig b |}
                           else b) <$> brokers,
                     importTrades db_ok newTrades trades)
              else inr (brokers, trades)
          end
      end
  end.

(** ** Trade history: sort header and group edit ([TradeHistory]) *)

(** [handleSort]; the state is [(sortField, sortDirection)]. *)
Definition handleSort (field : SortField) (st : SortField * SortDirection)
  : SortField * SortDirection :=
  let '(sortField, sortDirection) := st in
  if decide (sortField = field)
  then (sortField, if decide (sortDirection = asc) then desc else asc)
  else (field, desc).

(** [toggleGroup] *)
Definition toggleGroup (id : string) (expandedGroupId : option string) : option string :=
  if decide (expandedGroupId = Some id) then None else Some id.

Module GroupEditForm.
Record t := mk {
  strategy : string;
  confidence : number;
  notes : string;
  mistake : string
}.
End GroupEditForm.


(** [{...t, strategy, confidence, notes, mistake}] *)
Definition applyGroupEdit (groupEditForm : GroupEditForm.t) (t : Trade.t) : Trade.t :=
  {| Trade.id := Trade.id t; Trade.date := Trade.date t; Trade.symbol := Trade.symbol t;
     Trade.broker := Trade.broker t; Trade.entryPrice := Trade.entryPrice t;
     Trade.exitPrice := Trade.exitPrice t; Trade.quantity := Trade.quantity t;
     Trade.pnl := Trade.pnl t; Trade.segment := Trade.segment t;
     Trade.productType := Trade.productType t;
     Trade.confidence := GroupEditForm.confidence groupEditForm;
     Trade.strategy := GroupEditForm.strategy groupEditForm;
     Trade.notes := GroupEditForm.notes groupEditForm;
     Trade.mistake := Some (GroupEditForm.mistake groupEditForm);
     Trade.aiAnalysis := Trade.aiAnalysis t |}.

(** [saveGroupEdit]: the trades of the store after the bulk update. *)
Definition saveGroupEdit (db_ok : bool) (groupEditForm : GroupEditForm.t)
    (group : GroupedTrade.t) (prev : list Trade.t) : list Trade.t :=
  let updatedTrades := applyGroupEdit groupEditForm <$> GroupedTrade.trades group in
  updateTradesBulk db_ok updatedTrades prev.

(** [runAnalysis]: the trade with the feedback, written by [updateTrade]. *)
Definition runAnalysis (db_ok : bool) (trade : Trade.t) (analysis : string)
    (prev : list Trade.t) : list Trade.t :=
  updateTrade db_ok
    {| Trade.id := Trade.id trade; Trade.date := Trade.date trade;
       Trade.symbol := Trade.symbol trade; Trade.broker := Trade.broker trade;
       Trade.entryPrice := Trade.entryPrice trade;
       Trade.exitPrice := Trade.exitPrice trade; Trade.quantity := Trade.quantity trade;
       Trade.pnl := Trade.pnl trade; Trade.segment := Trade.segment trade;
       Trade.productType := Trade.productType trade;
       Trade.confidence := Trade.confidence trade; Trade.strategy := Trade.strategy trade;
       Trade.notes := Trade.notes trade; Trade.mistake := Trade.mistake trade;
       Trade.aiAnalysis := Some analysis |} prev.

(** ** Analysis view: the date range ([Analysis.filteredTrades]) *)

(** A number, NaN or [Infinity]. *)
Inductive ExtNum := Fin (x : number) | NaN | Infinity.

(** [a <= b]; false when either side is NaN. *)
Definition ext_le (a b : ExtNum) : bool :=
  match a, b with
  | Fin x, Fin y => bool_decide (x ≤ y)
  | Fin _, Infinity | Infinity, Infinity => true
  | _, _ => false
  end.

(** [d.getTime()] and [d.getTime() + ms] *)
Definition timeOf (d : JsDate) : ExtNum :=
  match d with Some ms => Fin ms | None => NaN end.

Definition ext_add (a : ExtNum) (ms : number) : ExtNum :=
  match a with Fin x => Fin (x + ms) | _ => a end.

Module Analysis.
Record DateRange := { start : string; end_ : string }.

Definition filteredTrades `{Host} (dateRange : DateRange) (trades : list Trade.t)
  : list Trade.t :=
  if bool_decide (start dateRange = "") && bool_decide (end_ dateRange = "") then trades
  else
    let start :=
      if bool_decide (start dateRange ≠ "") then timeOf (parseDate (start dateRange))
      else Fin 0 in
    let end_ :=
      if bool_decide (end_ dateRange ≠ "")
      then ext_add (timeOf (parseDate (end_ dateRange))) (num_of_Z 86400000)
      else Infinity in
    filter (λ t, let tradeDate := timeOf (parseDate (Trade.date t)) in
                 ext_le start tradeDate && ext_le tradeDate end_ = true) trades.
End Analysis.

(** ** Dashboard ([Dashboard]) *)

(** The locale formats the dashboard prints dates with. *)
Class Locale := {
  (** [d.toLocaleDateString()] *)
  toLocaleDateString : JsDate → string;
  (** [d.toLocaleTimeString([], { hour: '2-digit', minute: '2-digit' })] *)
  toLocaleTimeString : JsDate → string
}.

Module PnlPoint.
Record t := mk {
  date : string;
  time : string;
  pnl : number;
  rawDate : string;
  symbol : string;
  strategy : string;
  confidence : number;
  tradePnL : number;
  broker : BrokerName
}.
End PnlPoint.

Module DailyStat.
Record t := mk {
  date : string;
  dailyPnL : number;
  tradeCount : number;
  rawDate : JsDate
}.
End DailyStat.

Module BrokerCount.
Record t := mk { name : BrokerName; value : number }.
End BrokerCount.

(** The difference of two time values, read by the sort as 0 when it is
    NaN. *)
Definition timeDiff (a b : JsDate) : number :=
  match a, b with
  | Some ta, Some tb => ta - tb
  | _, _ => 0
  end.

Section Dashboard.
Context `{Host} `{Locale}.




End Dashboard.

(** The reducer of [brokerDistribution]. *)
Definition addToBrokerDistribution (acc : Dict BrokerName BrokerCount.t) (trade : Trade.t)
  : Dict BrokerName BrokerCount.t :=
  let acc :=
    dict_set (Trade.broker trade)
      (default {| BrokerCount.name := Trade.broker trade; BrokerCount.value := 0 |}
               (dict_get (Trade.broker trade) acc)) acc in
  match dict_get (Trade.broker trade) acc with
  | Some c =>
      dict_set (Trade.broker trade)
        {| BrokerCount.name := BrokerCount.name c;
           BrokerCount.value := BrokerCount.value c + 1 |} acc
  | None => acc
  end.

Definition brokerDistribution (trades : list Trade.t) : list BrokerCount.t :=
  Object_values (foldl addToBrokerDistribution [] trades).



(** ** New trade form: adding a strategy ([NewTrade.handleAddStrategy]) *)

(** The ASCII white space [trim] removes. *)
Definition is_space (c : ascii) : bool :=
  let n := N_of_ascii c in
  ((9 <=? n) && (n <=? 13) || (n =? 32))%N.

Fixpoint trimStart (s : string) : string :=
  match s with
  | String c s' => if is_space c then trimStart s' else s
  | EmptyString => EmptyString
  end.

Definition trim (s : string) : string :=
  String.rev (trimStart (String.rev (trimStart s))).

(** A string of white space only. *)
Fixpoint blank (s : string) : bool :=
  match s with
  | String c s' => is_space c && blank s'
  | EmptyString => true
  end.

Module NewTradeState.
Record t := mk {
  strategy : string;
  newStrategyName : string;
  isAddingStrategy : bool
}.
End NewTradeState.

(** [handleAddStrategy]: the state of the form (its strategy field and the
    two fields of the input for a new name) and the strategies of the
    store. *)
Definition handleAddStrategy (db_ok : bool) (form : NewTradeState.t) (st : StrategyState)
  : NewTradeState.t * StrategyState :=
  if bool_decide (trim (NewTradeState.newStrategyName form) ≠ "") then
    ({| NewTradeState.strategy := trim (NewTradeState.newStrategyName form);
        NewTradeState.newStrategyName := "";
        NewTradeState.isAddingStrategy := false |},
     addStrategy db_ok (trim (NewTradeState.newStrategyName form)) st)
  else (form, st).

(** ** Further definitions used to state properties *)

Section TradeInstantDef.
Context `{Host}.


End TradeInstantDef.

(** The list in memory is the one a reload would read. *)
Definition strategies_in_sync (st : StrategyState) : Prop :=
  getStrategies st = strategies st.

(** A result of [Math.random()]. *)
Definition unitInterval (r : number) : Prop := 0 ≤ r ∧ r < 1.


(** [toggleBroker] and [updateBrokerConfig] with the write of the changed
    broker to the database; the state is the list in memory and the object
    store. *)
Definition saveChanged (name : BrokerName) (updatedBrokers : list BrokerStatus.t)
    (savedBrokers : Dict BrokerName BrokerStatus.t) : Dict BrokerName BrokerStatus.t :=
  match findBroker name updatedBrokers with
  | Some changedBroker => saveBroker changedBroker savedBrokers
  | None => savedBrokers
  end.

Definition toggleBroker_saved (now : string) (name : BrokerName)
    (st : list BrokerStatus.t * Dict BrokerName BrokerStatus.t)
  : list BrokerStatus.t * Dict BrokerName BrokerStatus.t :=
  let updatedBrokers := toggleBroker now name st.1 in
  (updatedBrokers, saveChanged name updatedBrokers st.2).

Definition updateBrokerConfig_saved (name : BrokerName) (config : BrokerConfig)
    (st : list BrokerStatus.t * Dict BrokerName BrokerStatus.t)
  : list BrokerStatus.t * Dict BrokerName BrokerStatus.t :=
  let updatedBrokers := updateBrokerConfig name config st.1 in
  (updatedBrokers, saveChanged name updatedBrokers st.2).

(** The brokers a freshly mounted store holds after [loadData].  [getAll]
    lists the records by key; the merge only looks records up by name. *)
Definition reloadBrokers (savedBrokers : Dict BrokerName BrokerStatus.t)
  : list BrokerStatus.t :=
  loadBrokers (Object_values savedBrokers) INITIAL_BROKERS_DEFAULT.

(** Every record of the object store sits under its own name. *)
Definition keyedByName (savedBrokers : Dict BrokerName BrokerStatus.t) : Prop :=
  ∀ k b, (k, b) ∈ savedBrokers → BrokerStatus.name b = k.

(** What [getMetrics] reads of a trade. *)
Definition metricsView (t : Trade.t) : number * BrokerName * string :=
  (Trade.pnl t, Trade.broker t, Trade.date t).

(** The group edit as a map over the collection: the trades of the group
    take the values of the form. *)
Definition editGroupTrades (groupEditForm : GroupEditForm.t) (group : GroupedTrade.t)
    (prev : list Trade.t) : list Trade.t :=
  (λ t, if decide (t ∈ GroupedTrade.trades group) then applyGroupEdit groupEditForm t
        else t) <$> prev.

Section DateRangeDef.
Context `{Host}.

(** The instant [ms] is not before the start of the range: the start date
    when one is set, which then has to parse, and the epoch otherwise. *)
Definition afterStart (dateRange : Analysis.DateRange) (ms : number) : Prop :=
  if decide (Analysis.start dateRange = "") then 0 ≤ ms
  else ∃ s, parseDate (Analysis.start dateRange) = Some s ∧ s ≤ ms.

(** The instant [ms] is not after the end of the range: one day after the
    end date when one is set, which then has to parse. *)
Definition beforeEnd (dateRange : Analysis.DateRange) (ms : number) : Prop :=
  if decide (Analysis.end_ dateRange = "") then True
  else ∃ e, parseDate (Analysis.end_ dateRange) = Some e ∧ ms ≤ e + num_of_Z 86400000.
End DateRangeDef.

Section DailyDef.
Context `{Host} `{Locale}.

(** The key of the daily statistics: the local date of a trade. *)
Definition dateKey (trade : Trade.t) : string :=
  toLocaleDateString (parseDate (Trade.date trade)).


End DailyDef.

Definition initBrokerCount (trade : Trade.t) : BrokerCount.t :=
  {| BrokerCount.name := Trade.broker trade; BrokerCount.value := 0 |}.

Definition stepBrokerCount (c : BrokerCount.t) (trade : Trade.t) : BrokerCount.t :=
  {| BrokerCount.name := BrokerCount.name c; BrokerCount.value := BrokerCount.value c + 1 |}.


(** The separator of the parts of a group key occurs in a string. *)
Fixpoint hasUnderscore (s : string) : bool :=
  match s with
  | String c s' => bool_decide (c = "_"%char) || hasUnderscore s'
  | EmptyString => false
  end.

Section DayDef.
Context `{Host}.

(** The local calendar day of a date string, as the group key has it. *)
Definition dayOf (date : string) : string := toDateString (parseDate date).

(** The day of the trade is written without the separator of the key. *)
Definition plainDay (t : Trade.t) : Prop := hasUnderscore (dayOf (Trade.date t)) = false.
End DayDef.
(** ** Arithmetic of [number] *)

Lemma num_of_Z_add a b : num_of_Z (a + b) = num_of_Z a + num_of_Z b.
Proof.
  apply Qc_is_canon. unfold num_of_Z, Qcplus, Q2Qc; simpl.
  rewrite !Qred_correct, inject_Z_plus. reflexivity.
Qed.



Lemma num_of_Z_lt a b : num_of_Z a < num_of_Z b ↔ (a < b)%Z.
Proof.
  unfold Qclt, num_of_Z, Q2Qc; simpl. rewrite !Qred_correct, Zlt_Qlt. reflexivity.
Qed.





(** ** Sums *)

Lemma sum_with_cons {A} (f : A → number) x l : sum_with f (x :: l) = f x + sum_with f l.
Proof. reflexivity. Qed.

Lemma sum_with_app {A} (f : A → number) l1 l2 :
  sum_with f (l1 ++ l2) = sum_with f l1 + sum_with f l2.
Proof.
  induction l1 as [|x l1 IH]; [change (sum_with f l2 = 0 + sum_with f l2); ring|].
  rewrite <- app_comm_cons, !sum_with_cons, IH. ring.
Qed.



Lemma foldl_ext_eq {A B} (f g : A → B → A) a l :
  (∀ a x, f a x = g a x) → foldl f a l = foldl g a l.
Proof.
  intros E. revert a. induction l as [|x l IH]; intros a; [done|].
  cbn [foldl]. by rewrite E, IH.
Qed.

(** ** Dictionaries *)

Section DictFacts.
Context {K V : Type} `{EqDecision K}.
Implicit Types (d : Dict K V) (k : K) (v : V).

Lemma dict_get_set_eq k v d : dict_get k (dict_set k v d) = Some v.
Proof.
  induction d as [|[k' v'] d IH]; simpl.
  - by rewrite decide_True.
  - destruct (decide (k = k')) as [->|Hne]; simpl.
    + by rewrite decide_True.
    + by rewrite decide_False.
Qed.

Lemma dict_get_set_ne k k' v d : k ≠ k' → dict_get k' (dict_set k v d) = dict_get k' d.
Proof.
  intros Hne. induction d as [|[k0 v0] d IH]; simpl.
  - by rewrite decide_False.
  - destruct (decide (k = k0)) as [->|Hk]; simpl.
    + by rewrite !decide_False.
    + by rewrite IH.
Qed.

Lemma dict_set_set k v v' d : dict_set k v' (dict_set k v d) = dict_set k v' d.
Proof.
  induction d as [|[k0 v0] d IH]; simpl.
  - by rewrite decide_True.
  - destruct (decide (k = k0)) as [->|Hk]; simpl.
    + by rewrite decide_True.
    + by rewrite decide_False, IH.
Qed.

Lemma dict_get_None k d : dict_get k d = None ↔ k ∉ d.*1.
Proof.
  induction d as [|[k0 v0] d IH]; simpl.
  - split; [intros _; apply not_elem_of_nil|done].
  - rewrite not_elem_of_cons. destruct (decide (k = k0)) as [->|Hk].
    + split; [done|]. by intros [? _].
    + rewrite IH. split; [done|]. by intros [_ ?].
Qed.

Lemma dict_get_Some_elem k v d : dict_get k d = Some v → (k, v) ∈ d.
Proof.
  induction d as [|[k0 v0] d IH]; simpl; [done|].
  destruct (decide (k = k0)) as [->|Hk].
  - intros [= ->]. left.
  - intros. right. auto.
Qed.

Lemma dict_get_elem_Some k v d : NoDup d.*1 → (k, v) ∈ d → dict_get k d = Some v.
Proof.
  induction d as [|[k0 v0] d IH]; simpl.
  - intros _ []%elem_of_nil.
  - intros [Hk0 Hd]%NoDup_cons [[= -> ->]|Hin]%elem_of_cons.
    + by rewrite decide_True.
    + rewrite decide_False; [auto|]. intros ->. apply Hk0.
      apply list_elem_of_fmap. by exists (k0, v).
Qed.

Lemma dict_set_keys k v d :
  (dict_set k v d).*1 = if decide (k ∈ d.*1) then d.*1 else d.*1 ++ [k].
Proof.
  induction d as [|[k0 v0] d IH].
  - destruct (decide (k ∈ ([] : Dict K V).*1)) as [Hin|Hin]; [by apply elem_of_nil in Hin|done].
  - cbn [dict_set]. rewrite (fmap_cons fst (k0, v0)). cbn [fst].
    destruct (decide (k = k0)) as [->|Hk].
    + destruct (decide (k0 ∈ k0 :: d.*1)) as [Hin|Hin]; [done|].
      exfalso. apply Hin. left.
    + rewrite fmap_cons, IH. cbn [fst].
      destruct (decide (k ∈ d.*1)) as [Hd|Hd];
        destruct (decide (k ∈ k0 :: d.*1)) as [Hin|Hin]; try done.
      * exfalso. apply Hin. by right.
      * apply elem_of_cons in Hin as [?|?]; done.
Qed.

Lemma dict_set_NoDup k v d : NoDup d.*1 → NoDup (dict_set k v d).*1.
Proof.
  intros Hd. rewrite dict_set_keys. case_decide; [done|].
  apply NoDup_app. split; [done|]. split; [|apply NoDup_singleton].
  intros x Hx ->%list_elem_of_singleton. done.
Qed.

(** Writing a key changes the sum of a measure of the values by the
    difference between the new and the old measure. *)
Lemma dict_set_sum (m : V → number) k v d :
  sum_with m (dict_set k v d).*2
  = sum_with m d.*2 + m v - from_option m 0 (dict_get k d).
Proof.
  induction d as [|[k0 v0] d IH].
  - change (m v + 0 = 0 + m v - 0). ring.
  - cbn [dict_set dict_get]. destruct (decide (k = k0)) as [->|Hk].
    + rewrite !fmap_cons, !sum_with_cons. cbn [snd from_option]. ring.
    + rewrite !fmap_cons, !sum_with_cons, IH. cbn [snd]. ring.
Qed.
End DictFacts.

(** ** Buckets *)

Section Bucket.
Context {K V T : Type} `{EqDecision K}.
Context (key : T → K) (init : T → V) (step : V → T → V).

Local Abbreviation bucket := (bucket key init step).
Local Abbreviation buckets := (buckets key init step).

Lemma buckets_snoc l t : buckets (l ++ [t]) = bucket (buckets l) t.
Proof. unfold buckets. by rewrite foldl_app. Qed.

Lemma buckets_NoDup l : NoDup (buckets l).*1.
Proof.
  induction l as [|t l IH] using rev_ind; [constructor|].
  rewrite buckets_snoc. by apply dict_set_NoDup.
Qed.

(** The entry of a key is the fold of [step] over the items with that key,
    in their order, started from [init] of the first of them. *)
Lemma buckets_get l k :
  dict_get k (buckets l) =
  match filter (λ t, key t = k) l with
  | [] => None
  | t0 :: ts => Some (foldl step (init t0) (t0 :: ts))
  end.
Proof.
  induction l as [|t l IH] using rev_ind; [done|].
  rewrite buckets_snoc, filter_app. unfold bucket.
  destruct (decide (key t = k)) as [<-|Hk].
  - rewrite dict_get_set_eq, IH.
    rewrite (filter_cons_True _ t) by done. simpl.
    destruct (filter _ l) as [|t0 ts]; simpl; [done|].
    by rewrite foldl_app.
  - rewrite dict_get_set_ne, IH by done.
    rewrite (filter_cons_False _ t) by done. simpl. by rewrite app_nil_r.
Qed.

Lemma buckets_keys l k : k ∈ (buckets l).*1 ↔ k ∈ key <$> l.
Proof.
  split.
  - intros Hk. destruct (dict_get k (buckets l)) as [v|] eqn:E.
    + rewrite buckets_get in E.
      destruct (filter _ l) as [|t0 ts] eqn:F; [done|].
      assert (t0 ∈ filter (λ t, key t = k) l) as [<- ?]%list_elem_of_filter
        by (rewrite F; left).
      by apply list_elem_of_fmap_2.
    + by apply dict_get_None in E.
  - intros (t & -> & Ht)%list_elem_of_fmap.
    destruct (dict_get (key t) (buckets l)) as [v|] eqn:E.
    + apply dict_get_Some_elem in E. apply list_elem_of_fmap. by exists (key t, v).
    + rewrite buckets_get in E.
      assert (Hf : t ∈ filter (λ t', key t' = key t) l) by (by apply list_elem_of_filter).
      destruct (filter _ l); [by apply elem_of_nil in Hf|done].
Qed.


(** A measure of the values that is zero on a fresh entry and grows by
    [w t] with each item sums to the sum of [w] over the items. *)
Lemma buckets_sum (m : V → number) (w : T → number) l :
  (∀ t, m (init t) = 0) → (∀ v t, m (step v t) = m v + w t) →
  sum_with m (buckets l).*2 = sum_with w l.
Proof.
  intros Hinit Hstep. induction l as [|t l IH] using rev_ind; [done|].
  rewrite buckets_snoc. unfold bucket. rewrite dict_set_sum, Hstep, IH.
  rewrite sum_with_app, sum_with_cons. cbn [sum_with foldr].
  destruct (dict_get (key t) (buckets l)); simpl; [ring|]. rewrite Hinit. ring.
Qed.
End Bucket.

(** ** Sorting *)

Section ArraySortFacts.
Context {A : Type} (cmp : A → A → number).

Lemma sort_insert_Permutation x l : sort_insert cmp x l ≡ₚ x :: l.
Proof.
  induction l as [|y l IH]; [done|]. cbn [sort_insert].
  case_decide; [done|]. rewrite IH. apply Permutation_swap.
Qed.

Lemma Array_sort_Permutation l : Array_sort cmp l ≡ₚ l.
Proof.
  induction l as [|x l IH]; [done|].
  cbn [Array_sort foldr]. rewrite sort_insert_Permutation. by constructor.
Qed.
End ArraySortFacts.


(** ** Profit and loss of created trades *)

Section EntryFacts.
Context `{Host}.



Lemma fetchTradesFromBroker_length brokerName config now r_count draws :
  falsy_str (accessToken config) = false →
  ∃ ts, fetchTradesFromBroker brokerName config now r_count draws = inr ts ∧
        length ts = Z.to_nat (Math_floor (r_count * num_of_Z 3) + 1).
Proof.
  intros Hk. unfold fetchTradesFromBroker. rewrite Hk. eexists; split; [done|].
  by rewrite length_fmap, length_seq.
Qed.



End EntryFacts.

(** ** Grouping *)

Section GroupingFacts.
Context `{Host}.

Lemma addToGroups_bucket groups trade :
  addToGroups groups trade = bucket groupKey initGroup stepGroup groups trade.
Proof.
  unfold addToGroups, bucket.
  destruct (dict_get (groupKey trade) groups) as [g|] eqn:E; cbn [default].
  - by rewrite E.
  - by rewrite dict_get_set_eq, dict_set_set.
Qed.

Lemma groupTrades_buckets l :
  groupTrades l = (buckets groupKey initGroup stepGroup l).*2.
Proof.
  unfold groupTrades, buckets, Object_values. f_equal.
  apply foldl_ext_eq. intros. apply addToGroups_bucket.
Qed.

Lemma foldl_stepGroup g l :
  let g' := foldl stepGroup g l in
  GroupedTrade.id g' = GroupedTrade.id g ∧
  GroupedTrade.date g' = GroupedTrade.date g ∧
  GroupedTrade.trades g' = GroupedTrade.trades g ++ l ∧
  GroupedTrade.totalPnL g' = GroupedTrade.totalPnL g + sum_with Trade.pnl l ∧
  GroupedTrade.totalQty g' = GroupedTrade.totalQty g + sum_with Trade.quantity l.
Proof.
  revert g. induction l as [|t l IH]; intros g; cbn [foldl].
  - rewrite app_nil_r. repeat split; change (sum_with _ []) with 0; ring.
  - destruct (IH (stepGroup g t)) as (-> & -> & -> & -> & ->).
    cbn [stepGroup GroupedTrade.id GroupedTrade.date GroupedTrade.trades
         GroupedTrade.totalPnL GroupedTrade.totalQty].
    rewrite <- app_assoc, !sum_with_cons. repeat split; ring.
Qed.

(** What a group holds: the trades of the input that have its key, in
    their order, and their totals. *)
Lemma groupTrades_elem l g :
  g ∈ groupTrades l →
  GroupedTrade.trades g = filter (λ t, groupKey t = GroupedTrade.id g) l ∧
  GroupedTrade.trades g ≠ [] ∧
  GroupedTrade.totalPnL g = sum_with Trade.pnl (GroupedTrade.trades g) ∧
  GroupedTrade.totalQty g = sum_with Trade.quantity (GroupedTrade.trades g).
Proof.
  rewrite groupTrades_buckets.
  intros ([k g'] & -> & Hin)%list_elem_of_fmap. cbn [snd].
  apply dict_get_elem_Some in Hin; [|apply buckets_NoDup].
  rewrite buckets_get in Hin.
  destruct (filter (λ t, groupKey t = k) l) as [|t0 ts] eqn:F; [done|].
  injection Hin as <-.
  assert (t0 ∈ filter (λ t, groupKey t = k) l) as [Hk _]%list_elem_of_filter
    by (rewrite F; left).
  change (foldl stepGroup _ ts) with (foldl stepGroup (initGroup t0) (t0 :: ts)).
  destruct (foldl_stepGroup (initGroup t0) (t0 :: ts)) as (-> & _ & -> & -> & ->).
  cbn [initGroup GroupedTrade.id GroupedTrade.trades GroupedTrade.totalPnL
       GroupedTrade.totalQty]. rewrite Hk, F, app_nil_l.
  repeat split; [done|ring|ring].
Qed.

Lemma groupTrades_ids l : GroupedTrade.id <$> groupTrades l
                          = (buckets groupKey initGroup stepGroup l).*1.
Proof.
  rewrite groupTrades_buckets.
  pose proof (buckets_NoDup groupKey initGroup stepGroup l) as Hnd.
  assert (Hk : ∀ k g, (k, g) ∈ buckets groupKey initGroup stepGroup l →
                      GroupedTrade.id g = k).
  { intros k g Hin. apply dict_get_elem_Some in Hin; [|done].
    rewrite buckets_get in Hin.
    destruct (filter (λ t, groupKey t = k) l) as [|t0 ts] eqn:F; [done|].
    injection Hin as <-.
    assert (t0 ∈ filter (λ t, groupKey t = k) l) as [Hk _]%list_elem_of_filter
      by (rewrite F; left).
    change (foldl stepGroup _ ts) with (foldl stepGroup (initGroup t0) (t0 :: ts)).
    by destruct (foldl_stepGroup (initGroup t0) (t0 :: ts)) as (-> & _). }
  clear Hnd. induction (buckets groupKey initGroup stepGroup l) as [|[k g] d IH]; [done|].
  rewrite !fmap_cons. cbn [fst snd]. f_equal.
  - apply Hk. left.
  - apply IH. intros. apply Hk. by right.
Qed.


End GroupingFacts.

(** ** Best broker *)






Section BestBroker.
Context `{Host}.

End BestBroker.

(** ** Win rate *)

Lemma length_filter_wins trades :
  length (filter (λ t, 0 < Trade.pnl t) trades) = winCount trades.
Proof.
  induction trades as [|t l IH]; [done|]. cbn [winCount].
  destruct (Trade.pnl t ?= 0)%Qc eqn:E.
  - rewrite filter_cons_False; [done|].
    apply Qceq_alt in E. rewrite E. intros Hlt. by apply Qclt_not_eq in Hlt.
  - rewrite filter_cons_False; [done|].
    apply Qclt_alt in E. apply Qcle_not_lt. by apply Qclt_le_weak.
  - rewrite filter_cons_True; [by rewrite length_cons, IH|].
    by apply Qcgt_alt in E.
Qed.

Section WinRate.
Context `{Host}.

(** C4. [winRate] is the number of trades with [pnl > 0] over the number of
    trades, times 100, and 0 for the empty collection; a trade whose [pnl]
    is exactly 0 is not counted as a win. *)
Theorem winRate_formula now trades :
  Metrics.totalTrades (getMetrics now trades) = num_of_nat (length trades) ∧
  Metrics.winRate (getMetrics now trades) =
    (if decide (length trades = 0%nat) then 0
     else num_of_nat (winCount trades) / num_of_nat (length trades) * num_of_Z 100) ∧
  (∀ t, Trade.pnl t = 0 → winCount (t :: trades) = winCount trades) ∧
  (∀ t, 0 < Trade.pnl t → winCount (t :: trades) = S (winCount trades)).
Proof.
  split; [done|]. split; [|split].
  - cbn [getMetrics Metrics.winRate]. rewrite length_filter_wins.
    destruct trades; [done|]. rewrite decide_True, decide_False; [done|done|].
    cbn [length]. lia.
  - intros t E. cbn [winCount]. by rewrite E.
  - intros t E. cbn [winCount]. apply Qcgt_alt in E. by rewrite E.
Qed.
End WinRate.

(** ** Metrics and the clock *)

Section MetricsClock.
Context `{Host}.

(** C5, as amended. The metrics are a function of the trade collection and
    of the calendar day the clock shows: two calls on the same collection
    on the same day return the same record, and every field other than
    [tradesToday] is the same whatever the clock reads. *)
Theorem metrics_same_day :
  (∀ now1 now2 trades,
     toDateString (Some now1) = toDateString (Some now2) →
     getMetrics now1 trades = getMetrics now2 trades) ∧
  (∀ now1 now2 trades,
     let m1 := getMetrics now1 trades in
     let m2 := getMetrics now2 trades in
     Metrics.totalPnL m1 = Metrics.totalPnL m2 ∧
     Metrics.winRate m1 = Metrics.winRate m2 ∧
     Metrics.avgTradeValue m1 = Metrics.avgTradeValue m2 ∧
     Metrics.totalTrades m1 = Metrics.totalTrades m2 ∧
     Metrics.bestBroker m1 = Metrics.bestBroker m2).
Proof.
  split; [|done]. intros now1 now2 trades E. unfold getMetrics. by rewrite E.
Qed.
End MetricsClock.

Section MetricsClockExample.
Local Existing Instance UtcHost.host.

(** Two readings of the clock on 15 January 2024 and a trade closed that
    morning. *)
Lemma metrics_same_day_example :
  let t := exampleTrade "1" "2024-01-15T09:00:00.000Z" "TCS" Zerodha 100 110 10 in
  let morning := num_of_Z 1705312800000 in
  let evening := num_of_Z 1705348800000 in
  toDateString (Some morning) = toDateString (Some evening) ∧
  getMetrics morning [t] = getMetrics evening [t].
Proof.
  intros t morning evening.
  assert (E : toDateString (Some morning) = toDateString (Some evening))
    by (vm_compute; reflexivity).
  split; [exact E|].
  exact (proj1 (@metrics_same_day UtcHost.host) morning evening [t] E).
Defined.
End MetricsClockExample.

(** C5, as stated, fails: the same collection read on two different days
    gives two different records, because [tradesToday] follows the clock. *)
Lemma metrics_not_clock_free :
  ¬ (∀ (H : Host) (now1 now2 : number) (trades : list Trade.t),
       getMetrics now1 trades = getMetrics now2 trades).
Proof.
  intros C.
  pose (t := exampleTrade "1" "2024-01-15T09:00:00.000Z" "TCS" Zerodha 100 110 10).
  specialize (C UtcHost.host (num_of_Z 1705312800000) (num_of_Z 1705399200000) [t]).
  apply (f_equal (λ m, Qnum (this (Metrics.tradesToday m)))) in C.
  vm_compute in C. discriminate C.
Qed.

(** ** Statistics per strategy and per symbol *)

Lemma num_of_nat_S n : num_of_nat (S n) = num_of_nat n + 1.
Proof.
  unfold num_of_nat. rewrite Nat2Z.inj_succ, <- Z.add_1_r, num_of_Z_add. done.
Qed.

Lemma num_of_nat_0 : num_of_nat 0 = 0.
Proof. reflexivity. Qed.


Lemma num_of_Z_floor_le y : num_of_Z (Math_floor y) ≤ y.
Proof.
  unfold Qcle, num_of_Z, Math_floor; simpl. rewrite Qred_correct. apply Qfloor_le.
Qed.

Lemma num_of_Z_floor_lt y : y < num_of_Z (Math_floor y) + 1.
Proof.
  change 1 with (num_of_Z 1). rewrite <- num_of_Z_add.
  unfold Qclt, num_of_Z, Math_floor; simpl. rewrite Qred_correct. apply Qlt_floor.
Qed.











(** ** Order of strings *)

Lemma ascii_compare_refl c : Ascii.compare c c = Eq.
Proof. apply N.compare_refl. Qed.

Lemma ascii_compare_Lt_trans a b c :
  Ascii.compare a b = Lt → Ascii.compare b c = Lt → Ascii.compare a c = Lt.
Proof. unfold Ascii.compare. rewrite !N.compare_lt_iff. lia. Qed.

Lemma string_compare_refl s : String.compare s s = Eq.
Proof. induction s as [|a s IH]; cbn; [done|]. by rewrite ascii_compare_refl. Qed.

Lemma string_compare_Lt_trans s t u :
  String.compare s t = Lt → String.compare t u = Lt → String.compare s u = Lt.
Proof.
  revert t u. induction s as [|a s IH]; intros [|b t] [|c u]; cbn; try done.
  destruct (Ascii.compare a b) eqn:Eab; [| |done].
  - apply Ascii.compare_eq_iff in Eab as ->.
    destruct (Ascii.compare b c); [apply IH|done|done].
  - intros _. destruct (Ascii.compare b c) eqn:Ebc; [| |done]; intros _.
    + apply Ascii.compare_eq_iff in Ebc as <-. by rewrite Eab.
    + by rewrite (ascii_compare_Lt_trans a b c).
Qed.

Lemma str_le_alt s t : str_le s t ↔ String.compare s t ≠ Gt.
Proof. unfold str_le, String.leb. by destruct (String.compare s t). Qed.

Lemma str_le_total s t : str_le s t ∨ str_le t s.
Proof. apply String.leb_total. Qed.

Lemma str_le_trans s t u : str_le s t → str_le t u → str_le s u.
Proof.
  rewrite !str_le_alt. intros Hst Htu.
  destruct (String.compare s t) eqn:Est; [| |done].
  - by apply String.compare_eq_iff in Est as ->.
  - destruct (String.compare t u) eqn:Etu; [| |done].
    + apply String.compare_eq_iff in Etu as <-. by rewrite Est.
    + by rewrite (string_compare_Lt_trans s t u).
Qed.

(** Lower-casing forgets the case of letters. *)
Lemma toLowerCase_example : toLowerCase "Tcs" = toLowerCase "TCS".
Proof. reflexivity. Qed.

(** ** Sorting by a key *)

Section SortedBy.
Context {A : Type} (cmp : A → A → number) (P : A → Prop) (le : A → A → Prop).
Hypothesis cmp_le : ∀ a b, P a → P b → (cmp a b ≤ 0 ↔ le a b).
Hypothesis le_total : ∀ a b, P a → P b → le a b ∨ le b a.
Hypothesis le_trans : ∀ a b c, P a → P b → P c → le a b → le b c → le a c.

Lemma sort_insert_sorted x l :
  P x → Forall P l → StronglySorted le l → StronglySorted le (sort_insert cmp x l).
Proof.
  intros Hx Hl Hs. induction Hs as [|y l Hs IH Hy]; cbn [sort_insert].
  - repeat constructor.
  - apply Forall_cons in Hl as [HPy Hl]. case_decide as Hc.
    + apply cmp_le in Hc; [|done..]. constructor; [by constructor|].
      constructor; [done|]. rewrite Forall_forall in Hy, Hl |- *.
      intros z Hz. apply (le_trans x y z); auto.
    + constructor; [by apply IH|].
      rewrite Forall_forall in Hy |- *. intros z Hz.
      rewrite sort_insert_Permutation in Hz.
      apply elem_of_cons in Hz as [->|Hz]; [|by apply Hy].
      destruct (le_total x y) as [Hle|Hle]; [done..| |done].
      by apply cmp_le in Hle.
Qed.

Lemma Array_sort_sorted l : Forall P l → StronglySorted le (Array_sort cmp l).
Proof.
  induction l as [|x l IH]; intros Hl; [constructor|].
  apply Forall_cons in Hl as [Hx Hl]. cbn [Array_sort foldr].
  apply sort_insert_sorted; [done| |by apply IH].
  fold (Array_sort cmp l). by rewrite Array_sort_Permutation.
Qed.
End SortedBy.

(** ** The comparator of the groups *)

Lemma cmp_sign_le dir c :
  cmp_sign dir c ≤ 0 ↔ match dir with asc => c ≠ Gt | desc => c ≠ Lt end.
Proof. destruct dir, c; cbn; split; try done; by intros ?. Qed.

Lemma ordered_total {A} (le : A → A → Prop) dir x y :
  (le x y ∨ le y x) → ordered dir le x y ∨ ordered dir le y x.
Proof. destruct dir; cbn; tauto. Qed.

Section Comparator.
Context `{Host}.

Lemma compareGroups_text sortField dir a b s t :
  sortField ≠ sf_date →
  fieldOf sortField a = VStr s → fieldOf sortField b = VStr t →
  compareGroups sortField dir a b
  = cmp_sign dir (String.compare (toLowerCase s) (toLowerCase t)).
Proof.
  intros Hf Ea Eb. unfold compareGroups. rewrite decide_False, Ea, Eb by done.
  cbn [is_string val_toLowerCase js_lt]. unfold String.ltb.
  rewrite (String.compare_antisym (toLowerCase t) (toLowerCase s)).
  by destruct (String.compare (toLowerCase s) (toLowerCase t)), dir.
Qed.

Lemma compareGroups_date dir a b :
  validDate a → validDate b →
  compareGroups sf_date dir a b = cmp_sign dir (instant a ?= instant b)%Qc.
Proof.
  intros [ta Ea] [tb Eb]. unfold compareGroups, instant. rewrite Ea, Eb.
  cbn [decide getTime is_string js_lt default].
  rewrite decide_True by done. cbn [getTime is_string js_lt]. unfold id.
  destruct (ta ?= tb)%Qc eqn:E.
  - apply Qceq_alt in E as ->.
    rewrite !bool_decide_eq_false_2; [by destruct dir|..];
      intros Hlt; by apply Qclt_not_eq in Hlt.
  - apply Qclt_alt in E. rewrite bool_decide_eq_true_2 by done. by destruct dir.
  - apply Qcgt_alt in E.
    rewrite bool_decide_eq_false_2, bool_decide_eq_true_2; [by destruct dir|done|].
    apply Qcle_not_lt. by apply Qclt_le_weak.
Qed.
End Comparator.

Lemma num_compare_le (x y : number) : (x ?= y)%Qc ≠ Gt ↔ x ≤ y.
Proof. rewrite <- Qcgt_alt, Qcle_ngt. reflexivity. Qed.

Lemma num_compare_antisym (x y : number) : (y ?= x)%Qc = CompOpp (x ?= y)%Qc.
Proof. unfold Qccompare. symmetry. apply Qcompare_antisym. Qed.

Lemma num_le_total (x y : number) : x ≤ y ∨ y ≤ x.
Proof. destruct (Qclt_le_dec x y); [left; by apply Qclt_le_weak|by right]. Qed.

(** The comparator puts [a] before or level with [b] exactly when their keys
    are in order for the direction. *)
Lemma cmp_sign_ordered {A} dir (compare : A → A → comparison) (le : A → A → Prop) x y :
  (∀ x y, compare x y ≠ Gt ↔ le x y) →
  (∀ x y, compare y x = CompOpp (compare x y)) →
  cmp_sign dir (compare x y) ≤ 0 ↔ ordered dir le x y.
Proof.
  intros Hle Hanti. rewrite cmp_sign_le. destruct dir; cbn [ordered]; [apply Hle|].
  rewrite <- Hle, (Hanti x y). destruct (compare x y); cbn; split; congruence.
Qed.

Section SortOrder.
Context `{Host}.

Lemma Array_sort_text sortField dir text groups :
  sortField ≠ sf_date → (∀ g, fieldOf sortField g = VStr (text g)) →
  textSorted dir text (Array_sort (compareGroups sortField dir) groups).
Proof.
  intros Hf Htext. apply (Array_sort_sorted _ (λ _, True)).
  - intros a b _ _. rewrite (compareGroups_text _ _ _ _ _ _ Hf (Htext a) (Htext b)).
    apply (cmp_sign_ordered dir String.compare str_le).
    + intros. by rewrite str_le_alt.
    + intros. apply String.compare_antisym.
  - intros a b _ _. apply ordered_total, str_le_total.
  - intros a b c _ _ _. destruct dir; cbn [ordered]; eauto using str_le_trans.
  - by apply Forall_true.
Qed.

Lemma Array_sort_date dir groups :
  Forall validDate groups →
  StronglySorted (λ a b, ordered dir Qcle (instant a) (instant b))
    (Array_sort (compareGroups sf_date dir) groups).
Proof.
  apply Array_sort_sorted.
  - intros a b Ha Hb. rewrite compareGroups_date by done.
    apply (cmp_sign_ordered dir Qccompare Qcle);
      [apply num_compare_le|apply num_compare_antisym].
  - intros a b _ _. apply ordered_total, num_le_total.
  - intros a b c _ _ _. destruct dir; cbn [ordered]; eauto using Qcle_trans.
Qed.

(** C7. Sorting on the date orders the groups by the instant of their
    date, and sorting on the symbol or on the broker orders them by the
    lower-cased text, upwards or downwards as the direction says; the
    sorted list holds the same groups.  For a pair of groups the comparator
    returns the sign of the comparison of the two instants, or of the two
    lower-cased texts, reversed for the descending direction; it is
    therefore zero on texts that differ in case only. *)
Theorem sort_by_instant_and_folded_text dir groups :
  let sorted sortField := Array_sort (compareGroups sortField dir) groups in
  (∀ sortField, sorted sortField ≡ₚ groups) ∧
  (Forall validDate groups →
   StronglySorted (λ a b, ordered dir Qcle (instant a) (instant b)) (sorted sf_date)) ∧
  textSorted dir GroupedTrade.symbol (sorted sf_symbol) ∧
  textSorted dir GroupedTrade.broker (sorted sf_broker) ∧
  (∀ a b, validDate a → validDate b →
     compareGroups sf_date dir a b = cmp_sign dir (instant a ?= instant b)%Qc) ∧
  (∀ a b, compareGroups sf_symbol dir a b
          = cmp_sign dir (String.compare (toLowerCase (GroupedTrade.symbol a))
                                         (toLowerCase (GroupedTrade.symbol b)))) ∧
  (∀ a b, compareGroups sf_broker dir a b
          = cmp_sign dir (String.compare (toLowerCase (GroupedTrade.broker a))
                                         (toLowerCase (GroupedTrade.broker b)))) ∧
  (∀ a b, toLowerCase (GroupedTrade.symbol a) = toLowerCase (GroupedTrade.symbol b) →
          compareGroups sf_symbol dir a b = 0).
Proof.
  intros sorted.
  assert (Hsym : ∀ a b, compareGroups sf_symbol dir a b
            = cmp_sign dir (String.compare (toLowerCase (GroupedTrade.symbol a))
                                           (toLowerCase (GroupedTrade.symbol b))))
    by (intros; by apply compareGroups_text).
  split; [intros; apply Array_sort_Permutation|].
  split; [apply Array_sort_date|].
  split; [by apply Array_sort_text|]. split; [by apply Array_sort_text|].
  split; [intros; by apply compareGroups_date|]. split; [done|].
  split; [intros; by apply compareGroups_text|].
  intros a b E. by rewrite Hsym, E, string_compare_refl.
Qed.
End SortOrder.

Section SortOrderExample.
Local Existing Instance UtcHost.host.

(** Two groups whose dates parse are put in the order of their instants. *)
Lemma sort_by_instant_example :
  let groups := groupTrades exampleBook in
  Forall validDate groups ∧
  GroupedTrade.date <$> Array_sort (compareGroups sf_date desc) groups
  = ["2024-01-16T09:00:00.000Z"; "2024-01-15T09:00:00.000Z"] ∧
  StronglySorted (λ a b, ordered desc Qcle (instant a) (instant b))
    (Array_sort (compareGroups sf_date desc) groups).
Proof.
  intros groups.
  assert (Hv : Forall validDate groups).
  { apply (bool_decide_unpack (Forall (λ g, is_Some (parseDate (GroupedTrade.date g))) groups)).
    vm_compute. exact I. }
  split; [exact Hv|]. split; [vm_compute; reflexivity|].
  exact (proj1 (proj2 (@sort_by_instant_and_folded_text UtcHost.host desc groups)) Hv).
Defined.
End SortOrderExample.

(** ** Filtering by product type *)

Section ProductTypeFilter.
Lemma filteredTrades_elem f trades t :
  t ∈ filteredTrades f trades ↔ t ∈ trades ∧ keepTrade f t = true.
Proof. unfold filteredTrades. rewrite list_elem_of_filter. tauto. Qed.

Lemma keepTrade_absent_Delivery f t :
  Trade.productType t = None →
  keepTrade (setFilterProductType "Delivery" f) t
  = keepTrade (setFilterProductType "All" f) t.
Proof.
  intros E. unfold keepTrade, setFilterProductType.
  cbn [filterBroker filterSegment filterStrategy filterProductType]. rewrite E.
  destruct (differs (filterBroker f) _); [done|].
  destruct (differs (filterSegment f) _); [done|].
  by destruct (differs_str (filterStrategy f) _).
Qed.

Lemma keepTrade_absent_Intraday f t :
  Trade.productType t = None →
  keepTrade (setFilterProductType "Intraday" f) t = false.
Proof.
  intros E. unfold keepTrade, setFilterProductType.
  cbn [filterBroker filterSegment filterStrategy filterProductType]. rewrite E.
  destruct (differs (filterBroker f) _); [done|].
  destruct (differs (filterSegment f) _); [done|].
  by destruct (differs_str (filterStrategy f) _).
Qed.

(** C8. A trade without [productType] counts as ['Delivery']: the filter
    ['Delivery'] keeps it exactly when the other filters do, so it is kept
    when no other filter is set, and the filter ['Intraday'] drops it. *)
Theorem absent_productType_is_Delivery f trades t :
  Trade.productType t = None →
  t ∈ trades →
  (t ∈ filteredTrades (setFilterProductType "Delivery" f) trades ↔
   t ∈ filteredTrades (setFilterProductType "All" f) trades) ∧
  t ∈ filteredTrades (setFilterProductType "Delivery" noFilters) trades ∧
  t ∉ filteredTrades (setFilterProductType "Intraday" f) trades.
Proof.
  intros E Ht. rewrite !filteredTrades_elem.
  rewrite !keepTrade_absent_Delivery, keepTrade_absent_Intraday by done.
  split; [reflexivity|]. split; [by split|]. by intros [_ ?].
Qed.
End ProductTypeFilter.

(** A trade entered by hand has no [productType]; a filter on the broker
    stays in force next to the product type filter. *)
Lemma absent_productType_example :
  let t := exampleTrade "1" "2024-01-15T09:00:00.000Z" "TCS" Zerodha 100 110 10 in
  let u := exampleTrade "2" "2024-01-15T09:30:00.000Z" "INFY" Dhan 200 190 5 in
  let f := {| filterBroker := Only Zerodha; filterSegment := All;
              filterStrategy := "All"; filterProductType := "All" |} in
  Trade.productType t = None ∧ t ∈ [u; t] ∧
  filteredTrades (setFilterProductType "Delivery" f) [u; t] = [t] ∧
  filteredTrades (setFilterProductType "Intraday" f) [u; t] = [] ∧
  ((t ∈ filteredTrades (setFilterProductType "Delivery" f) [u; t] ↔
    t ∈ filteredTrades (setFilterProductType "All" f) [u; t]) ∧
   t ∈ filteredTrades (setFilterProductType "Delivery" noFilters) [u; t] ∧
   t ∉ filteredTrades (setFilterProductType "Intraday" f) [u; t]).
Proof.
  intros t u f.
  assert (E : Trade.productType t = None) by reflexivity.
  assert (Ht : t ∈ [u; t]) by (right; left).
  split; [exact E|]. split; [exact Ht|].
  split; [vm_compute; reflexivity|]. split; [vm_compute; reflexivity|].
  exact (absent_productType_is_Delivery f [u; t] t E Ht).
Defined.

(** ** Bulk update *)

Lemma updatesMap_snoc l u : updatesMap (l ++ [u]) = <[Trade.id u := u]> (updatesMap l).
Proof. unfold updatesMap. by rewrite foldl_app. Qed.

(** The map holds, for each id of the list, the last trade with that id. *)
Lemma updatesMap_lookup l k :
  updatesMap l !! k = last (filter (λ u, Trade.id u = k) l).
Proof.
  induction l as [|u l IH] using rev_ind; [done|].
  rewrite updatesMap_snoc, filter_app.
  destruct (decide (Trade.id u = k)) as [<-|Hk].
  - rewrite lookup_insert_eq, (filter_cons_True _ u) by done.
    cbn [filter list_filter]. by rewrite last_snoc.
  - rewrite lookup_insert_ne, (filter_cons_False _ u), IH by done.
    cbn [filter list_filter]. by rewrite app_nil_r.
Qed.

Lemma updatesMap_None l k : updatesMap l !! k = None ↔ k ∉ Trade.id <$> l.
Proof.
  rewrite updatesMap_lookup, last_None. split.
  - intros E (u & -> & Hu)%list_elem_of_fmap.
    assert (Hf : u ∈ filter (λ u', Trade.id u' = Trade.id u) l)
      by (by apply list_elem_of_filter).
    rewrite E in Hf. by apply elem_of_nil in Hf.
  - intros Hk. destruct (filter _ l) as [|u us] eqn:F; [done|].
    assert (u ∈ filter (λ u', Trade.id u' = k) l) as [<- ?]%list_elem_of_filter
      by (rewrite F; left).
    exfalso. apply Hk. by apply list_elem_of_fmap_2.
Qed.

Lemma updatesMap_Some l k u : updatesMap l !! k = Some u → u ∈ l ∧ Trade.id u = k.
Proof.
  rewrite updatesMap_lookup. intros E.
  assert (Hf : u ∈ filter (λ u', Trade.id u' = k) l).
  { apply last_Some in E as [l' ->]. apply elem_of_app. right. left. }
  apply list_elem_of_filter in Hf as [? ?]. done.
Qed.

(** C9. When the database write succeeds, [updateTradesBulk] replaces the
    trades whose id is in the update list, each by the last supplied trade
    with that id, and nothing else: the length and the sequence of ids stay
    the same, a trade whose id is not in the list stays as it is, and a
    supplied trade whose id is not in the collection does not enter it.  When
    the write fails the collection stays as it is. *)
Theorem updateTradesBulk_frame updatedTrades prev :
  let next := updateTradesBulk true updatedTrades prev in
  length next = length prev ∧
  Trade.id <$> next = Trade.id <$> prev ∧
  (∀ i t, prev !! i = Some t → Trade.id t ∉ Trade.id <$> updatedTrades →
          next !! i = Some t) ∧
  (∀ i t, prev !! i = Some t → Trade.id t ∈ Trade.id <$> updatedTrades →
          ∃ u, u ∈ updatedTrades ∧ Trade.id u = Trade.id t ∧
               last (filter (λ u', Trade.id u' = Trade.id t) updatedTrades) = Some u ∧
               next !! i = Some u) ∧
  (∀ u, u ∈ updatedTrades → Trade.id u ∉ Trade.id <$> prev → u ∉ next) ∧
  updateTradesBulk false updatedTrades prev = prev.
Proof.
  intros next.
  assert (Hids : Trade.id <$> next = Trade.id <$> prev).
  { unfold next, updateTradesBulk. rewrite <- list_fmap_compose.
    apply list_fmap_ext. intros i t _. cbn.
    destruct (updatesMap updatedTrades !! Trade.id t) as [u|] eqn:E; [|done].
    by apply updatesMap_Some in E as [_ ?]. }
  split; [unfold next, updateTradesBulk; by rewrite length_fmap|]. split; [done|]. split; [|split; [|split]].
  - intros i t Hi Hid. unfold next, updateTradesBulk.
    rewrite list_lookup_fmap, Hi. cbn. apply updatesMap_None in Hid. by rewrite Hid.
  - intros i t Hi Hid. unfold next, updateTradesBulk.
    rewrite list_lookup_fmap, Hi. cbn.
    destruct (updatesMap updatedTrades !! Trade.id t) as [u|] eqn:E.
    + exists u. pose proof E as [? ?]%updatesMap_Some.
      rewrite updatesMap_lookup in E. done.
    + by apply updatesMap_None in E.
  - intros u Hu Hid Hin. apply Hid. rewrite <- Hids. by apply list_elem_of_fmap_2.
  - done.
Qed.

(** ** The strategy list *)

Lemma addStrategy_present db_ok strategy st :
  strategy ∈ strategies st → addStrategy db_ok strategy st = st.
Proof. intros Hin. unfold addStrategy. by rewrite bool_decide_eq_true_2. Qed.

Lemma addStrategy_absent db_ok strategy st :
  strategy ∉ strategies st →
  strategies (addStrategy db_ok strategy st) = strategies st ++ [strategy] ∧
  stored (addStrategy db_ok strategy st)
  = if db_ok then Some (strategies st ++ [strategy]) else stored st.
Proof. intros Hin. unfold addStrategy. by rewrite bool_decide_eq_false_2. Qed.

Lemma NoDup_snoc_fresh (l : list string) s : NoDup l → s ∉ l → NoDup (l ++ [s]).
Proof.
  intros Hl Hs. apply NoDup_app. split; [done|]. split; [|apply NoDup_singleton].
  by intros x Hx ->%list_elem_of_singleton.
Qed.

Lemma strategy_step_distinct st st' :
  strategies_distinct st → strategy_step st st' → strategies_distinct st'.
Proof.
  intros [Hmem Hdb] Hstep. destruct Hstep as [st|st|db_ok strategy st].
  - split; [constructor|done].
  - split; [|done]. unfold loadData, getStrategies; cbn.
    destruct (stored st) as [l|]; cbn; [by apply Hdb|].
    change (NoDup defaultStrategies). by apply (bool_decide_unpack _).
  - destruct (decide (strategy ∈ strategies st)) as [Hin|Hin].
    + by rewrite addStrategy_present.
    + destruct (addStrategy_absent db_ok strategy st Hin) as [Es Ed].
      split; [rewrite Es; by apply NoDup_snoc_fresh|].
      rewrite Ed. destruct db_ok; [|done].
      intros l [= <-]. by apply NoDup_snoc_fresh.
Qed.

(** C10. [addStrategy] leaves the state as it is when the name is already in
    the list and appends the name otherwise; no step of the store (mounting,
    loading from the database, adding a name) introduces a duplicate, so the
    list is free of duplicates in every state the store reaches from a fresh
    database. *)
Theorem strategies_never_duplicate :
  (∀ db_ok strategy st,
     strategy ∈ strategies st → addStrategy db_ok strategy st = st) ∧
  (∀ db_ok strategy st,
     strategy ∉ strategies st →
     strategies (addStrategy db_ok strategy st) = strategies st ++ [strategy]) ∧
  (∀ st st', strategies_distinct st → strategy_step st st' → strategies_distinct st') ∧
  (∀ st, rtc strategy_step initialState st → NoDup (strategies st)).
Proof.
  split; [apply addStrategy_present|]. split; [intros; by apply addStrategy_absent|].
  split; [apply strategy_step_distinct|].
  intros st Hreach.
  assert (Hinit : strategies_distinct initialState) by (split; [constructor|done]).
  revert Hinit. induction Hreach as [|st1 st2 st3 Hstep _ IH]; intros Hd.
  - exact (proj1 Hd).
  - apply IH. by eapply strategy_step_distinct.
Qed.

(** ** The definitions at work *)

Section Examples.
Local Existing Instance UtcHost.host.

Example groupedTrades_example :
  let groups := groupedTrades noFilters sf_date desc exampleBook in
  GroupedTrade.id <$> groups = ["Tue Jan 16 2024_infy_Dhan"; "Mon Jan 15 2024_TCS_Zerodha"] ∧
  GroupedTrade.totalPnL <$> groups = [num_of_Z 50; num_of_Z 50] ∧
  GroupedTrade.totalQty <$> groups = [num_of_Z 5; num_of_Z 15] ∧
  (length ∘ GroupedTrade.trades) <$> groups = [1; 2]%nat.
Proof.
  cbn zeta. split; [reflexivity|].
  split; [by repeat (f_equal; try apply Qc_is_canon)|].
  split; [by repeat (f_equal; try apply Qc_is_canon)|reflexivity].
Qed.

(** Two trades of one day, symbol and broker with [pnl] +50 and -20 make one
    group with total 30. *)
Example group_total_example :
  let a := exampleTrade "1" "2024-01-15T09:00:00.000Z" "TCS" Zerodha 100 110 5 in
  let b := exampleTrade "2" "2024-01-15T14:00:00.000Z" "TCS" Zerodha 110 108 10 in
  ∃ g, groupedTrades noFilters sf_date desc [a; b] = [g] ∧
       GroupedTrade.totalPnL g = num_of_Z 30 ∧ GroupedTrade.trades g = [a; b].
Proof.
  cbn zeta. eexists. split; [vm_compute; reflexivity|].
  split; [by apply Qc_is_canon|reflexivity].
Qed.

Example sort_symbol_example :
  GroupedTrade.symbol <$> groupedTrades noFilters sf_symbol asc exampleBook
  = ["infy"; "TCS"].
Proof. reflexivity. Qed.

Example getMetrics_example :
  let m := getMetrics (num_of_Z 1705399200000) exampleBook in
  Metrics.totalPnL m = num_of_Z 100 ∧
  Metrics.winRate m = Q2Qc (200 # 3) ∧
  Metrics.tradesToday m = num_of_Z 1 ∧
  Metrics.bestBroker m = Best Zerodha.
Proof. cbn zeta. repeat split; try by apply Qc_is_canon. Qed.

Example getMetrics_empty :
  getMetrics (num_of_Z 1705399200000) []
  = {| Metrics.totalPnL := 0; Metrics.winRate := 0; Metrics.avgTradeValue := 0;
       Metrics.totalTrades := num_of_Z 0; Metrics.tradesToday := num_of_Z 0;
       Metrics.bestBroker := NA |}.
Proof. reflexivity. Qed.

Example handleSubmit_example :
  let form := {| FormData.broker := Zerodha; FormData.symbol := "tcs";
                 FormData.entryPrice := "100.50"; FormData.exitPrice := "110";
                 FormData.quantity := "10"; FormData.segment := Equity;
                 FormData.confidence := num_of_Z 7; FormData.strategy := "Breakout";
                 FormData.notes := ""; FormData.mistake := "" |} in
  let t := handleSubmit form (num_of_Z 1705312800000) "ok" in
  Trade.id t = "1705312800000" ∧ Trade.date t = "2024-01-15T10:00:00.000Z" ∧
  Trade.symbol t = "TCS" ∧ Trade.pnl t = num_of_Z 95.
Proof. cbn zeta. repeat split; try by apply Qc_is_canon. Qed.

Example mockTrade_example :
  let d := {| r_win := Q2Qc (1 # 10); r_symbol := Q2Qc (3 # 10);
              r_entry := Q2Qc (1 # 1000); r_qty := Q2Qc (1 # 50);
              r_date := 0; d_now := num_of_Z 1705312800000 |} in
  let t := mockTrade Fyers (num_of_Z 1705312800000) 0 d in
  Trade.symbol t = "INFY" ∧ Trade.entryPrice t = num_of_Z 101 ∧
  Trade.exitPrice t = Q2Qc (9595 # 100) ∧ Trade.quantity t = num_of_Z 11 ∧
  Trade.pnl t = Q2Qc (- 5555 # 100).
Proof. cbn zeta. repeat split; try by apply Qc_is_canon. Qed.

Example updateTradesBulk_example :
  let u := exampleTrade "2" "2024-01-15T11:00:00.000Z" "TCS" Zerodha 110 120 5 in
  let v := exampleTrade "9" "2024-01-17T11:00:00.000Z" "SBIN" Fyers 10 12 1 in
  Trade.pnl <$> updateTradesBulk true [u; v] exampleBook
  = [num_of_Z 100; num_of_Z 50; num_of_Z 50].
Proof. cbn zeta. by repeat (f_equal; try apply Qc_is_canon). Qed.
End Examples.


(** * Further properties of the code *)

(** ** Single update *)

(** X1. [updateTrade] keeps the length of the collection and the sequence of
    ids, returns the collection itself when no trade has the id, and does
    what [updateTradesBulk] does with the one-element list; a failed write
    leaves the collection as it is. *)
Theorem updateTrade_frame trade prev :
  let next := updateTrade true trade prev in
  length next = length prev ∧
  Trade.id <$> next = Trade.id <$> prev ∧
  (Trade.id trade ∉ Trade.id <$> prev → next = prev) ∧
  (∀ t, t ∈ prev → Trade.id t = Trade.id trade → trade ∈ next) ∧
  next = updateTradesBulk true [trade] prev ∧
  updateTrade false trade prev = prev.
Proof.
  cbn zeta. unfold updateTrade, updateTradesBulk.
  split; [by rewrite length_fmap|]. split.
  { rewrite <- list_fmap_compose. apply list_fmap_ext. intros i t _. cbn.
    by case_decide. }
  split.
  { intros Hid. rewrite <- (list_fmap_id prev) at 2.
    apply list_fmap_ext. intros i t Hi. cbn. case_decide as E; [|done].
    exfalso. apply Hid. rewrite <- E. apply list_elem_of_fmap_2.
    by eapply list_elem_of_lookup_2. }
  split.
  { intros t Ht E. apply list_elem_of_fmap. exists t. by rewrite decide_True. }
  split; [|done].
  apply list_fmap_ext. intros i t _. cbn. unfold updatesMap. cbn [foldl].
  case_decide as E.
  - by rewrite E, lookup_insert_eq.
  - rewrite lookup_insert_ne by done. by rewrite lookup_empty.
Qed.

(** ** Metrics *)



Lemma num_of_nat_pos n : (0 < n)%nat → 0 < num_of_nat n.
Proof. intros. change 0 with (num_of_Z 0). apply num_of_Z_lt. lia. Qed.



Section MetricsFacts.
Context `{Host}.



End MetricsFacts.

(** ** Import *)

Lemma Qcminus_le_0 (x y : number) : x - y ≤ 0 ↔ x ≤ y.
Proof.
  rewrite (Qcplus_le_mono_r (x - y) 0 y).
  replace (x - y + y) with x by ring. by rewrite Qcplus_0_l.
Qed.

Section ImportFacts.
Context `{Host}.


End ImportFacts.

Section ImportExample.
Local Existing Instance UtcHost.host.

End ImportExample.

(** ** Sort header *)

(** X5. A click on a column header makes it the sort column; a click on
    another column than the current one starts in descending order, and two
    clicks on the current column give the state back. *)
Theorem handleSort_toggle field st :
  (handleSort field st).1 = field ∧
  (st.1 ≠ field → handleSort field st = (field, desc)) ∧
  (st.1 = field → handleSort field (handleSort field st) = st) ∧
  (st.1 ≠ field → handleSort field (handleSort field st) = (field, asc)).
Proof.
  destruct st as [sortField sortDirection]; cbn [fst snd].
  destruct (decide (sortField = field)) as [->|Hne].
  - assert (E : ∀ d, handleSort field (field, d)
                     = (field, if decide (d = asc) then desc else asc)).
    { intros d. unfold handleSort. by rewrite decide_True. }
    rewrite !E. split; [done|]. split; [done|]. split; [|done].
    intros _. by destruct sortDirection.
  - assert (E : handleSort field (sortField, sortDirection) = (field, desc)).
    { unfold handleSort. by rewrite decide_False. }
    rewrite E. split; [done|]. split; [done|]. split; [done|].
    intros _. unfold handleSort. by rewrite decide_True.
Qed.

(** ** Strategies and the database *)

(** X6. Loading makes the list in memory the saved one; from then on a
    successful [addStrategy] keeps the two the same, so that mounting and
    loading again gives the same state: an added strategy survives a reload.
    A name whose save failed is not there after a reload. *)
Theorem strategies_survive_reload :
  (∀ st, strategies_in_sync (loadData st)) ∧
  (∀ strategy st,
     strategies_in_sync st → strategies_in_sync (addStrategy true strategy st)) ∧
  (∀ st, strategies_in_sync st → loadData (mount st) = st) ∧
  (∀ strategy st, strategy ∉ strategies st →
     strategy ∈ strategies (loadData (mount (addStrategy true strategy st)))) ∧
  (∀ strategy st, strategy ∉ strategies st → strategy ∉ getStrategies st →
     strategy ∉ strategies (loadData (mount (addStrategy false strategy st)))).
Proof.
  split; [done|]. split.
  { intros strategy st Hs. unfold addStrategy. case_bool_decide; [done|].
    reflexivity. }
  split.
  { intros [mem db] Hs. unfold strategies_in_sync in Hs. cbn in Hs.
    unfold loadData, mount. cbn. by rewrite Hs. }
  split.
  - intros strategy st Hnew. unfold addStrategy.
    rewrite bool_decide_eq_false_2 by done. cbn.
    apply elem_of_app. right. left.
  - intros strategy st Hnew Hdb. unfold addStrategy.
    rewrite bool_decide_eq_false_2 by done. done.
Qed.

(** ** The simulated broker sync *)

Lemma floor_scale_bounds r n :
  unitInterval r → (0 < n)%Z → (0 ≤ Math_floor (r * num_of_Z n) < n)%Z.
Proof.
  intros [H0 H1] Hn.
  assert (Hpos : 0 < num_of_Z n) by (change 0 with (num_of_Z 0); by apply num_of_Z_lt).
  assert (Hy0 : 0 ≤ r * num_of_Z n)
    by (apply Qcmult_nonneg_nonneg; [done|by apply Qclt_le_weak]).
  assert (Hy1 : r * num_of_Z n < num_of_Z n).
  { rewrite <- (Qcmult_1_l (num_of_Z n)) at 2. by apply Qcmult_lt_mono_pos_r. }
  pose proof (num_of_Z_floor_le (r * num_of_Z n)) as Hle.
  pose proof (num_of_Z_floor_lt (r * num_of_Z n)) as Hlt.
  split.
  - assert (0 < Math_floor (r * num_of_Z n) + 1)%Z; [|lia].
    apply num_of_Z_lt. rewrite num_of_Z_add. by eapply Qcle_lt_trans.
  - apply num_of_Z_lt. by eapply Qcle_lt_trans.
Qed.

Section SyncFacts.
Context `{Host}.


End SyncFacts.

Section SyncExample.
Local Existing Instance UtcHost.host.

End SyncExample.

(** ** Brokers *)

Lemma findBroker_Some name brokers b :
  findBroker name brokers = Some b → b ∈ brokers ∧ BrokerStatus.name b = name.
Proof.
  unfold findBroker. destruct (list_find _ brokers) as [[i b']|] eqn:E; [|done].
  intros [= <-]. apply list_find_Some in E as (Hi & Hn & _).
  split; [by eapply list_elem_of_lookup_2|done].
Qed.

Lemma findBroker_None name brokers :
  findBroker name brokers = None ↔ name ∉ BrokerStatus.name <$> brokers.
Proof.
  unfold findBroker. destruct (list_find _ brokers) as [[i b']|] eqn:E; cbn.
  - apply list_find_Some in E as (Hi & Hn & _). split; [done|]. intros Hnot.
    exfalso. apply Hnot. rewrite <- Hn. apply list_elem_of_fmap_2.
    by eapply list_elem_of_lookup_2.
  - split; [|done]. intros _ (b & -> & Hb)%list_elem_of_fmap.
    apply list_find_None in E. rewrite Forall_forall in E. by apply (E b).
Qed.

(** X8. [toggleBroker] flips the connection of the named broker and of no
    other: names and API configurations stay, the other brokers stay as they
    are, a broker that was switched on carries the time as [lastSync] and
    one that was switched off carries none; toggling again restores every
    connection flag. *)
Theorem toggleBroker_effect now name brokers :
  let next := toggleBroker now name brokers in
  BrokerStatus.name <$> next = BrokerStatus.name <$> brokers ∧
  BrokerStatus.apiConfig <$> next = BrokerStatus.apiConfig <$> brokers ∧
  (∀ i b, brokers !! i = Some b → BrokerStatus.name b ≠ name → next !! i = Some b) ∧
  (∀ i b, brokers !! i = Some b → BrokerStatus.name b = name →
     ∃ b', next !! i = Some b' ∧
       BrokerStatus.isConnected b' = negb (BrokerStatus.isConnected b) ∧
       BrokerStatus.lastSync b'
       = if BrokerStatus.isConnected b' then Some now else None) ∧
  (∀ now', BrokerStatus.isConnected <$> toggleBroker now' name next
           = BrokerStatus.isConnected <$> brokers).
Proof.
  cbn zeta. unfold toggleBroker.
  split; [|split; [|split; [|split]]].
  - rewrite <- list_fmap_compose. apply list_fmap_ext. intros i b _. cbn.
    by case_decide.
  - rewrite <- list_fmap_compose. apply list_fmap_ext. intros i b _. cbn.
    by case_decide.
  - intros i b Hi Hn. rewrite list_lookup_fmap, Hi. cbn. by rewrite decide_False.
  - intros i b Hi Hn. rewrite list_lookup_fmap, Hi. cbn. rewrite decide_True by done.
    eexists. split; [done|]. cbn. by destruct (BrokerStatus.isConnected b).
  - intros now'. rewrite <- !list_fmap_compose. apply list_fmap_ext.
    intros i b _. cbn. destruct (decide (BrokerStatus.name b = name)) as [E|E]; cbn.
    + rewrite decide_True by done. cbn. apply negb_involutive.
    + by rewrite decide_False.
Qed.

Section BrokerSync.
Context `{Host}.

Lemma fetchTradesFromBroker_count brokerName config now r_count draws :
  unitInterval r_count → falsy_str (accessToken config) = false →
  ∃ ts, fetchTradesFromBroker brokerName config now r_count draws = inr ts ∧
        (1 ≤ length ts ≤ 3)%nat ∧ Forall (λ t, Trade.broker t = brokerName) ts.
Proof.
  intros Hr Hk. unfold fetchTradesFromBroker. rewrite Hk. eexists. split; [done|].
  pose proof (floor_scale_bounds _ 3 Hr ltac:(lia)) as Hc.
  split; [rewrite length_fmap, length_seq; lia|].
  apply Forall_forall. by intros t (i & -> & _)%list_elem_of_fmap.
Qed.

(** X9. [syncBroker] fails with "Broker not configured" when the broker is
    not in the list or has no API configuration, and with the error of the
    fetch when the access token is empty.  Otherwise it imports one to three
    new trades of that broker and writes the time into [lastSync] of that
    broker alone, whether or not the database write of the import
    succeeded; names, connections and configurations stay. *)
Theorem syncBroker_outcome db_ok name now r_count draws nowString brokers trades :
  unitInterval r_count →
  match syncBroker db_ok name now r_count draws nowString brokers trades with
  | inl error =>
      (error = "Broker not configured" ∧
       (name ∉ BrokerStatus.name <$> brokers ∨
        ∃ b, findBroker name brokers = Some b ∧ BrokerStatus.apiConfig b = None)) ∨
      (error = "Access Token is missing. Please configure the broker API." ∧
       ∃ b config, findBroker name brokers = Some b ∧
         BrokerStatus.apiConfig b = Some config ∧
         falsy_str (accessToken config) = true)
  | inr (brokers', trades') =>
      (∃ b config newTrades, findBroker name brokers = Some b ∧
         BrokerStatus.apiConfig b = Some config ∧
         falsy_str (accessToken config) = false ∧
         (1 ≤ length newTrades ≤ 3)%nat ∧
         Forall (λ t, Trade.broker t = name) newTrades ∧
         trades' = importTrades db_ok newTrades trades) ∧
      BrokerStatus.name <$> brokers' = BrokerStatus.name <$> brokers ∧
      BrokerStatus.isConnected <$> brokers' = BrokerStatus.isConnected <$> brokers ∧
      BrokerStatus.apiConfig <$> brokers' = BrokerStatus.apiConfig <$> brokers ∧
      (∀ i b, brokers !! i = Some b →
         BrokerStatus.lastSync <$> brokers' !! i
         = Some (if decide (BrokerStatus.name b = name) then Some nowString
                 else BrokerStatus.lastSync b))
  end.
Proof.
  intros Hr. unfold syncBroker.
  destruct (findBroker name brokers) as [b|] eqn:Eb;
    [|left; split; [done|]; left; by apply findBroker_None].
  destruct (BrokerStatus.apiConfig b) as [config|] eqn:Ec;
    [|left; split; [done|]; right; by exists b].
  destruct (falsy_str (accessToken config)) eqn:Ek.
  { unfold fetchTradesFromBroker. rewrite Ek. right. split; [done|]. by exists b, config. }
  destruct (fetchTradesFromBroker_count name config now r_count draws Hr Ek)
    as (newTrades & -> & Hlen & Hall).
  rewrite decide_True by lia.
  split; [by exists b, config, newTrades|].
  split; [|split; [|split]].
  - rewrite <- list_fmap_compose. apply list_fmap_ext. intros i b' _. cbn.
    by case_decide.
  - rewrite <- list_fmap_compose. apply list_fmap_ext. intros i b' _. cbn.
    by case_decide.
  - rewrite <- list_fmap_compose. apply list_fmap_ext. intros i b' _. cbn.
    by case_decide.
  - intros i b' Hi. rewrite list_lookup_fmap, Hi. cbn. by case_decide.
Qed.

Lemma findBroker_updateBrokerConfig name config brokers :
  name ∈ BrokerStatus.name <$> brokers →
  ∃ b, findBroker name (updateBrokerConfig name config brokers) = Some b ∧
       BrokerStatus.apiConfig b = Some config.
Proof.
  unfold findBroker, updateBrokerConfig.
  induction brokers as [|b0 brokers IH]; [by intros ?%elem_of_nil|].
  rewrite !fmap_cons. intros Hin. cbn [list_find].
  destruct (decide (BrokerStatus.name b0 = name)) as [E|E].
  - cbn [BrokerStatus.name]. rewrite decide_True by done. eexists. by split.
  - rewrite decide_False by done. apply elem_of_cons in Hin as [?|Hin]; [done|].
    destruct (IH Hin) as (b & Eb & Hb). exists b. split; [|done].
    destruct (list_find _ _) as [[i b']|]; [|done]. cbn in *. congruence.
Qed.

(** X10. [updateBrokerConfig] changes the API configuration of the named
    broker and nothing else.  For a broker of the list, a sync after it
    never fails with "Broker not configured": it imports one to three trades
    when the access token is not empty, and fails with the error of the
    fetch when it is. *)
Theorem configured_broker_syncs
    db_ok name config now r_count draws nowString brokers trades :
  name ∈ BrokerStatus.name <$> brokers →
  unitInterval r_count →
  let brokers' := updateBrokerConfig name config brokers in
  BrokerStatus.name <$> brokers' = BrokerStatus.name <$> brokers ∧
  BrokerStatus.isConnected <$> brokers' = BrokerStatus.isConnected <$> brokers ∧
  BrokerStatus.lastSync <$> brokers' = BrokerStatus.lastSync <$> brokers ∧
  (∀ i b, brokers !! i = Some b → BrokerStatus.name b ≠ name → brokers' !! i = Some b) ∧
  match syncBroker db_ok name now r_count draws nowString brokers' trades with
  | inl error =>
      falsy_str (accessToken config) = true ∧
      error = "Access Token is missing. Please configure the broker API."
  | inr (_, trades') =>
      falsy_str (accessToken config) = false ∧
      ∃ newTrades, (1 ≤ length newTrades ≤ 3)%nat ∧
                   trades' = importTrades db_ok newTrades trades
  end.
Proof.
  intros Hin Hr brokers'.
  split; [|split; [|split; [|split]]].
  - unfold brokers', updateBrokerConfig. rewrite <- list_fmap_compose.
    apply list_fmap_ext. intros i b _. cbn. by case_decide.
  - unfold brokers', updateBrokerConfig. rewrite <- list_fmap_compose.
    apply list_fmap_ext. intros i b _. cbn. by case_decide.
  - unfold brokers', updateBrokerConfig. rewrite <- list_fmap_compose.
    apply list_fmap_ext. intros i b _. cbn. by case_decide.
  - intros i b Hi Hn. unfold brokers', updateBrokerConfig.
    rewrite list_lookup_fmap, Hi. cbn. by rewrite decide_False.
  - destruct (findBroker_updateBrokerConfig name config brokers Hin) as (b & Eb & Ec).
    unfold syncBroker. fold brokers' in Eb. rewrite Eb, Ec.
    destruct (falsy_str (accessToken config)) eqn:Ek.
    { unfold fetchTradesFromBroker. by rewrite Ek. }
    destruct (fetchTradesFromBroker_count name config now r_count draws Hr Ek)
      as (newTrades & -> & Hlen & _).
    rewrite decide_True by lia. split; [done|]. by exists newTrades.
Qed.
End BrokerSync.

Section BrokerSyncExample.
Local Existing Instance UtcHost.host.

(** The default brokers, a token for Fyers, and a sync that draws one
    trade. *)
Lemma configured_broker_syncs_example :
  let config := {| clientId := None; accessToken := Some "token"; apiKey := None |} in
  let d := {| r_win := Q2Qc (1 # 2); r_symbol := 0; r_entry := 0; r_qty := 0;
              r_date := 0; d_now := num_of_Z 1705312800000 |} in
  Fyers ∈ BrokerStatus.name <$> INITIAL_BROKERS_DEFAULT ∧ unitInterval 0 ∧
  ∃ brokers' trades',
    syncBroker true Fyers (num_of_Z 1705312800000) 0 (λ _, d) "now"
      (updateBrokerConfig Fyers config INITIAL_BROKERS_DEFAULT) exampleBook
    = inr (brokers', trades') ∧ length trades' = 4%nat.
Proof.
  intros config d.
  assert (Hin : Fyers ∈ BrokerStatus.name <$> INITIAL_BROKERS_DEFAULT)
    by (right; left).
  assert (Hr : unitInterval 0) by (split; by vm_compute).
  split; [exact Hin|]. split; [exact Hr|].
  pose proof (configured_broker_syncs true Fyers config (num_of_Z 1705312800000) 0
                (λ _, d) "now" INITIAL_BROKERS_DEFAULT exampleBook Hin Hr) as Hs.
  cbn zeta in Hs. apply proj2, proj2, proj2, proj2 in Hs.
  destruct (syncBroker _ _ _ _ _ _ _ _) as [e|[brokers' trades']] eqn:E.
  - destruct Hs as [Hs _]. vm_compute in Hs. discriminate Hs.
  - exists brokers', trades'. split; [reflexivity|].
    apply (f_equal (λ r, match r with inr (_, ts) => length ts | inl _ => 0%nat end)) in E.
    rewrite <- E. vm_compute. reflexivity.
Defined.
End BrokerSyncExample.

Section SyncOutcomeExample.
Local Existing Instance UtcHost.host.

(** A broker with a token: the sync goes through and the names stay. *)
Lemma syncBroker_outcome_example :
  let config := {| clientId := None; accessToken := Some "token"; apiKey := None |} in
  let d := {| r_win := Q2Qc (1 # 2); r_symbol := 0; r_entry := 0; r_qty := 0;
              r_date := 0; d_now := num_of_Z 1705312800000 |} in
  let brokers := updateBrokerConfig Dhan config INITIAL_BROKERS_DEFAULT in
  unitInterval (Q2Qc (1 # 2)) ∧
  ∃ brokers' trades',
    syncBroker false Dhan (num_of_Z 1705312800000) (Q2Qc (1 # 2)) (λ _, d) "now"
      brokers exampleBook = inr (brokers', trades') ∧
    BrokerStatus.name <$> brokers' = BrokerStatus.name <$> brokers.
Proof.
  intros config d brokers.
  assert (Hr : unitInterval (Q2Qc (1 # 2))) by (split; by vm_compute).
  split; [exact Hr|].
  pose proof (syncBroker_outcome false Dhan (num_of_Z 1705312800000) (Q2Qc (1 # 2))
                (λ _, d) "now" brokers exampleBook Hr) as Hs.
  destruct (syncBroker _ _ _ _ _ _ _ _) as [e|[brokers' trades']] eqn:E.
  - exfalso. vm_compute in E. discriminate E.
  - exists brokers', trades'. split; [reflexivity|]. exact (proj1 (proj2 Hs)).
Defined.
End SyncOutcomeExample.

(** ** Brokers and the database *)

Lemma findBroker_values name (db : Dict BrokerName BrokerStatus.t) :
  keyedByName db → findBroker name (Object_values db) = dict_get name db.
Proof.
  unfold findBroker, Object_values. induction db as [|[k b] db IH]; intros Hk; [done|].
  rewrite fmap_cons. cbn [list_find dict_get snd].
  assert (Ek : BrokerStatus.name b = k) by (apply Hk; left).
  assert (Hk' : keyedByName db) by (intros k' b' Hin; apply Hk; by right).
  destruct (decide (name = k)) as [->|Hne].
  - by rewrite decide_True.
  - rewrite decide_False by congruence. rewrite <- (IH Hk').
    by destruct (list_find _ _) as [[i b']|].
Qed.

(** What a reload reads: for each of the four brokers its saved record, or
    the default when there is none. *)
Lemma reloadBrokers_lookup (db : Dict BrokerName BrokerStatus.t) :
  keyedByName db →
  reloadBrokers db
  = (λ def, default def (dict_get (BrokerStatus.name def) db)) <$> INITIAL_BROKERS_DEFAULT.
Proof.
  intros Hk. unfold reloadBrokers, loadBrokers. case_decide as Hlen.
  - unfold mergeBrokers. apply list_fmap_ext. intros i def _. cbn.
    by rewrite findBroker_values.
  - destruct db; [|cbn in Hlen; lia]. symmetry. apply list_fmap_id.
Qed.

Lemma dict_set_elem {K V} `{EqDecision K} (k k' : K) (v v' : V) (d : Dict K V) :
  (k', v') ∈ dict_set k v d → (k' = k ∧ v' = v) ∨ (k', v') ∈ d.
Proof.
  induction d as [|[k0 v0] d IH]; cbn [dict_set].
  - intros [= -> ->]%list_elem_of_singleton. by left.
  - case_decide as E.
    + intros [[= -> ->]|Hin]%elem_of_cons; [by left|]. right. by right.
    + intros [[= -> ->]|Hin]%elem_of_cons; [right; left|].
      destruct (IH Hin); [by left|]. right. by right.
Qed.

Lemma saveBroker_keyed b (db : Dict BrokerName BrokerStatus.t) :
  keyedByName db → keyedByName (saveBroker b db).
Proof.
  intros Hk k b' [[-> ->]|Hin]%dict_set_elem; [done|]. by apply Hk.
Qed.

Lemma findBroker_unique name b brokers :
  NoDup (BrokerStatus.name <$> brokers) → b ∈ brokers → BrokerStatus.name b = name →
  findBroker name brokers = Some b.
Proof.
  intros Hnd Hin Hn. destruct (findBroker name brokers) as [b'|] eqn:E.
  - apply findBroker_Some in E as [Hin' Hn']. f_equal.
    apply list_elem_of_lookup in Hin as [i Hi], Hin' as [j Hj].
    assert (i = j); [|congruence].
    eapply NoDup_lookup; [done| |]; rewrite list_lookup_fmap.
    + by rewrite Hi.
    + rewrite Hj. cbn. congruence.
  - apply findBroker_None in E. exfalso. apply E. rewrite <- Hn.
    by apply list_elem_of_fmap_2.
Qed.

(** An update of the named broker that keeps its name, written to the
    database, is read back by a reload. *)
Lemma saved_update_reload (f : BrokerStatus.t → BrokerStatus.t) name
    (db : Dict BrokerName BrokerStatus.t) :
  (∀ b, BrokerStatus.name (f b) = BrokerStatus.name b) →
  keyedByName db →
  let updatedBrokers :=
    (λ b, if decide (BrokerStatus.name b = name) then f b else b) <$> reloadBrokers db in
  keyedByName (saveChanged name updatedBrokers db) ∧
  reloadBrokers (saveChanged name updatedBrokers db) = updatedBrokers.
Proof.
  intros Hf Hk updatedBrokers.
  set (g := λ def, default def (dict_get (BrokerStatus.name def) db)).
  assert (Hg : ∀ def, BrokerStatus.name (g def) = BrokerStatus.name def).
  { intros def. unfold g. destruct (dict_get _ db) as [b|] eqn:E; [|done].
    cbn. apply Hk. by apply dict_get_Some_elem. }
  set (h := λ def, if decide (BrokerStatus.name (g def) = name) then f (g def) else g def).
  assert (Hupd : updatedBrokers = h <$> INITIAL_BROKERS_DEFAULT).
  { unfold updatedBrokers. rewrite reloadBrokers_lookup by done.
    by rewrite <- list_fmap_compose. }
  assert (Hh : ∀ def, BrokerStatus.name (h def) = BrokerStatus.name def).
  { intros def. unfold h. case_decide; [rewrite Hf|]; apply Hg. }
  set (def0 := {| BrokerStatus.name := name; BrokerStatus.isConnected := false;
                  BrokerStatus.lastSync := None; BrokerStatus.apiConfig := None |}).
  assert (Hdef0 : def0 ∈ INITIAL_BROKERS_DEFAULT).
  { apply list_elem_of_fmap. exists name. split; [done|].
    destruct name; set_solver. }
  assert (Hchanged : findBroker name updatedBrokers = Some (f (g def0))).
  { apply findBroker_unique.
    - rewrite Hupd, <- list_fmap_compose.
      rewrite (list_fmap_ext (BrokerStatus.name ∘ h) BrokerStatus.name
                 INITIAL_BROKERS_DEFAULT) by (intros; apply Hh).
      by apply (bool_decide_unpack _).
    - rewrite Hupd. apply list_elem_of_fmap. exists def0. split; [|done].
      unfold h. by rewrite decide_True by apply Hg.
    - by rewrite Hf, Hg. }
  unfold saveChanged. rewrite Hchanged.
  split; [by apply saveBroker_keyed|].
  rewrite reloadBrokers_lookup by (by apply saveBroker_keyed). rewrite Hupd.
  apply list_fmap_ext. intros i def Hi. cbn. unfold saveBroker.
  assert (Hn : BrokerStatus.name (f (g def0)) = name) by (by rewrite Hf, Hg).
  rewrite Hn. unfold h. rewrite Hg.
  destruct (decide (BrokerStatus.name def = name)) as [E|E].
  - rewrite E, dict_get_set_eq. cbn. do 2 f_equal.
    apply list_elem_of_lookup_2, list_elem_of_fmap in Hi as (n & -> & _).
    cbn in E. by subst n.
  - by rewrite dict_get_set_ne by done.
Qed.

(** X11. What is switched or configured survives a reload.  Starting from
    the brokers a load gives for the database, after [toggleBroker] or
    [updateBrokerConfig] with their write of the changed broker, a fresh
    mount and load reads back exactly the list in memory. *)
Theorem broker_status_survives_reload now name config
    (savedBrokers : Dict BrokerName BrokerStatus.t) :
  keyedByName savedBrokers →
  let st := (reloadBrokers savedBrokers, savedBrokers) in
  (keyedByName (toggleBroker_saved now name st).2 ∧
   reloadBrokers (toggleBroker_saved now name st).2 = (toggleBroker_saved now name st).1) ∧
  (keyedByName (updateBrokerConfig_saved name config st).2 ∧
   reloadBrokers (updateBrokerConfig_saved name config st).2
   = (updateBrokerConfig_saved name config st).1).
Proof.
  intros Hk st. split.
  - apply (saved_update_reload _ name savedBrokers); [done|done].
  - apply (saved_update_reload _ name savedBrokers); [done|done].
Qed.

(** From an empty database, switching Dhan on. *)
Lemma broker_status_survives_reload_example :
  let config := {| clientId := None; accessToken := Some "token"; apiKey := None |} in
  let st := toggleBroker_saved "now" Dhan (reloadBrokers [], []) in
  keyedByName [] ∧
  BrokerStatus.isConnected <$> st.1 = [false; false; true; false] ∧
  reloadBrokers st.2 = st.1.
Proof.
  intros config st.
  assert (Hk : keyedByName []) by (by intros k b ?%elem_of_nil).
  split; [exact Hk|]. split; [reflexivity|].
  exact (proj2 (proj1 (broker_status_survives_reload "now" Dhan config [] Hk))).
Defined.

(** ** Group edit *)

Lemma length_filter_fmap {A B} (g : A → B) (P : B → Prop) `{∀ x, Decision (P x)}
    (l : list A) :
  length (filter (λ t, P (g t)) l) = length (filter P (g <$> l)).
Proof.
  induction l as [|x l IH]; [done|]. rewrite fmap_cons.
  destruct (decide (P (g x))).
  - rewrite !filter_cons_True by done. cbn [length]. by rewrite IH.
  - by rewrite !filter_cons_False by done.
Qed.

Section GroupEdit.
Context `{Host}.

(** [getMetrics] reads the [pnl], the broker and the date of the trades and
    nothing else. *)
Lemma getMetrics_view now l1 l2 :
  metricsView <$> l1 = metricsView <$> l2 → getMetrics now l1 = getMetrics now l2.
Proof.
  intros E.
  assert (Hlen : length l1 = length l2)
    by (by rewrite <- (length_fmap metricsView l1), E, length_fmap).
  assert (Hfold : ∀ {A} (f : A → number * BrokerName * string → A) a,
             foldl (λ acc t, f acc (metricsView t)) a l1
             = foldl (λ acc t, f acc (metricsView t)) a l2).
  { intros A f a. by rewrite <- !(foldl_fmap f a _ metricsView), E. }
  assert (Hfilter : ∀ (P : number * BrokerName * string → Prop) `{∀ x, Decision (P x)},
             length (filter (λ t, P (metricsView t)) l1)
             = length (filter (λ t, P (metricsView t)) l2)).
  { intros P ?. by rewrite !(length_filter_fmap metricsView P), E. }
  assert (E1 : foldl (λ acc t, acc + Trade.pnl t) 0 l1
               = foldl (λ acc t, acc + Trade.pnl t) 0 l2)
    by exact (Hfold _ (λ acc v, acc + v.1.1) 0).
  assert (E2 : length (filter (λ t, 0 < Trade.pnl t) l1)
               = length (filter (λ t, 0 < Trade.pnl t) l2))
    by exact (Hfilter (λ v, 0 < v.1.1) _).
  assert (E3 : length (filter (λ t, toDateString (parseDate (Trade.date t))
                                    = toDateString (Some now)) l1)
               = length (filter (λ t, toDateString (parseDate (Trade.date t))
                                      = toDateString (Some now)) l2))
    by exact (Hfilter (λ v, toDateString (parseDate v.2) = toDateString (Some now)) _).
  assert (E4 : brokerPnL l1 = brokerPnL l2)
    by exact (Hfold _ (λ acc v, dict_set v.1.2
                                  (default 0 (dict_get v.1.2 acc) + v.1.1) acc) []).
  unfold getMetrics. cbn zeta. by rewrite Hlen, E1, E2, E3, E4.
Qed.

Lemma groupedTrades_subset f sortField sortDirection prev g t :
  g ∈ groupedTrades f sortField sortDirection prev →
  t ∈ GroupedTrade.trades g → t ∈ prev.
Proof.
  unfold groupedTrades. rewrite Array_sort_Permutation.
  intros (-> & _)%groupTrades_elem [_ Ht]%list_elem_of_filter.
  by apply filteredTrades_elem in Ht as [? _].
Qed.

Lemma NoDup_id_eq (prev : list Trade.t) t t' :
  NoDup (Trade.id <$> prev) → t ∈ prev → t' ∈ prev → Trade.id t = Trade.id t' → t = t'.
Proof.
  intros Hnd [i Hi]%list_elem_of_lookup [j Hj]%list_elem_of_lookup E.
  assert (i = j); [|congruence].
  eapply NoDup_lookup; [done| |]; rewrite list_lookup_fmap.
  - by rewrite Hi.
  - rewrite Hj. cbn. by rewrite E.
Qed.

(** With distinct ids, the bulk update of a group edit changes the trades of
    the group and no other. *)
Lemma saveGroupEdit_map groupEditForm group prev :
  NoDup (Trade.id <$> prev) →
  (∀ t, t ∈ GroupedTrade.trades group → t ∈ prev) →
  saveGroupEdit true groupEditForm group prev = editGroupTrades groupEditForm group prev.
Proof.
  intros Hnd Hsub. unfold saveGroupEdit, updateTradesBulk, editGroupTrades.
  apply list_fmap_ext. intros i t Hi. cbn.
  apply list_elem_of_lookup_2 in Hi.
  destruct (updatesMap _ !! Trade.id t) as [u|] eqn:E; cbn.
  - apply updatesMap_Some in E as [(t' & -> & Ht')%list_elem_of_fmap Eid].
    cbn in Eid. assert (t' = t) as -> by (eapply NoDup_id_eq; eauto).
    by rewrite decide_True.
  - apply updatesMap_None in E. rewrite decide_False; [done|].
    intros Ht. apply E. rewrite <- list_fmap_compose.
    apply list_elem_of_fmap. by exists t.
Qed.

Lemma editGroupTrades_view groupEditForm group prev :
  metricsView <$> editGroupTrades groupEditForm group prev = metricsView <$> prev.
Proof.
  unfold editGroupTrades. rewrite <- list_fmap_compose.
  apply list_fmap_ext. intros i t _. cbn. by case_decide.
Qed.

(** X12. With distinct ids in the store, saving the edit of a group of the
    view changes the strategy, confidence, notes and mistake of the trades
    of that group and nothing else; the metrics are the same after it. *)
Theorem group_edit_keeps_metrics
    db_ok groupEditForm f sortField sortDirection group prev now :
  NoDup (Trade.id <$> prev) →
  group ∈ groupedTrades f sortField sortDirection prev →
  let next := saveGroupEdit db_ok groupEditForm group prev in
  next = (if db_ok then editGroupTrades groupEditForm group prev else prev) ∧
  getMetrics now next = getMetrics now prev ∧
  Trade.id <$> next = Trade.id <$> prev ∧
  Trade.symbol <$> next = Trade.symbol <$> prev ∧
  Trade.quantity <$> next = Trade.quantity <$> prev.
Proof.
  intros Hnd Hg next.
  assert (E : next = if db_ok then editGroupTrades groupEditForm group prev else prev).
  { unfold next. destruct db_ok; [|done]. apply saveGroupEdit_map; [done|].
    intros t. by eapply groupedTrades_subset. }
  split; [done|]. rewrite E. destruct db_ok; [|done].
  split; [apply getMetrics_view, editGroupTrades_view|].
  unfold editGroupTrades. rewrite <- !list_fmap_compose.
  repeat split; apply list_fmap_ext; intros i t _; cbn; by case_decide.
Qed.

End GroupEdit.

Section GroupEditExample.
Local Existing Instance UtcHost.host.

(** An edit of the first group of the example book. *)
Lemma group_edit_keeps_metrics_example :
  let form := {| GroupEditForm.strategy := "Breakout";
                 GroupEditForm.confidence := num_of_Z 8;
                 GroupEditForm.notes := "held too long";
                 GroupEditForm.mistake := "" |} in
  let now := num_of_Z 1705399200000 in
  NoDup (Trade.id <$> exampleBook) ∧
  ∃ group, group ∈ groupedTrades noFilters sf_date desc exampleBook ∧
    getMetrics now (saveGroupEdit true form group exampleBook)
    = getMetrics now exampleBook.
Proof.
  intros form now.
  assert (Hnd : NoDup (Trade.id <$> exampleBook))
    by (apply (bool_decide_unpack _); vm_compute; exact I).
  split; [exact Hnd|].
  destruct (groupedTrades noFilters sf_date desc exampleBook) as [|group rest] eqn:E;
    [vm_compute in E; discriminate E|].
  assert (Hg : group ∈ groupedTrades noFilters sf_date desc exampleBook)
    by (rewrite E; left).
  exists group. split; [rewrite <- E; exact Hg|].
  exact (proj1 (proj2 (group_edit_keeps_metrics true form noFilters sf_date desc
                         group exampleBook now Hnd Hg))).
Defined.

End GroupEditExample.

(** ** Date range of the analysis *)

Section DateRange.
Context `{Host}.

Lemma ext_le_start dateRange ms :
  ext_le (if bool_decide (Analysis.start dateRange ≠ "")
          then timeOf (parseDate (Analysis.start dateRange)) else Fin 0) (Fin ms) = true
  ↔ afterStart dateRange ms.
Proof.
  unfold afterStart. destruct (decide (Analysis.start dateRange = "")) as [E|E].
  - rewrite bool_decide_eq_false_2 by (by intros ?). cbn. apply bool_decide_eq_true.
  - rewrite bool_decide_eq_true_2 by done.
    destruct (parseDate (Analysis.start dateRange)) as [s|]; cbn.
    + rewrite bool_decide_eq_true. split; [by exists s|]. by intros (? & [= <-] & ?).
    + split; [done|]. by intros (? & ? & _).
Qed.

Lemma ext_le_end dateRange ms :
  ext_le (Fin ms)
    (if bool_decide (Analysis.end_ dateRange ≠ "")
     then ext_add (timeOf (parseDate (Analysis.end_ dateRange))) (num_of_Z 86400000)
     else Infinity) = true
  ↔ beforeEnd dateRange ms.
Proof.
  unfold beforeEnd. destruct (decide (Analysis.end_ dateRange = "")) as [E|E].
  - by rewrite bool_decide_eq_false_2 by (by intros ?).
  - rewrite bool_decide_eq_true_2 by done.
    destruct (parseDate (Analysis.end_ dateRange)) as [e|]; cbn.
    + rewrite bool_decide_eq_true. split; [by exists e|]. by intros (? & [= <-] & ?).
    + split; [done|]. by intros (? & ? & _).
Qed.

(** X14. Without a date range the analysis takes all trades.  With a start
    or an end date set, it takes exactly the trades whose date parses and
    lies between the start date (the epoch, when only an end is set) and one
    day after the end date; a trade whose date does not parse is left out,
    and a start date that does not parse leaves no trade. *)
Theorem dateRange_filter dateRange trades :
  (Analysis.start dateRange = "" → Analysis.end_ dateRange = "" →
   Analysis.filteredTrades dateRange trades = trades) ∧
  (¬ (Analysis.start dateRange = "" ∧ Analysis.end_ dateRange = "") →
   (∀ t, t ∈ Analysis.filteredTrades dateRange trades ↔
         t ∈ trades ∧ ∃ ms, parseDate (Trade.date t) = Some ms ∧
                            afterStart dateRange ms ∧ beforeEnd dateRange ms) ∧
   (Analysis.start dateRange ≠ "" → parseDate (Analysis.start dateRange) = None →
    Analysis.filteredTrades dateRange trades = [])).
Proof.
  split.
  { intros Es Ee. unfold Analysis.filteredTrades.
    by rewrite !bool_decide_eq_true_2 by done. }
  intros Hset.
  assert (Helem : ∀ t, t ∈ Analysis.filteredTrades dateRange trades ↔
         t ∈ trades ∧ ∃ ms, parseDate (Trade.date t) = Some ms ∧
                            afterStart dateRange ms ∧ beforeEnd dateRange ms).
  { intros t. unfold Analysis.filteredTrades.
    assert (bool_decide (Analysis.start dateRange = "")
            && bool_decide (Analysis.end_ dateRange = "") = false) as ->.
    { apply andb_false_iff. rewrite !bool_decide_eq_false.
      destruct (decide (Analysis.start dateRange = "")); [right|by left].
      intros ?. by apply Hset. }
    rewrite list_elem_of_filter. cbn zeta.
    destruct (parseDate (Trade.date t)) as [ms|]; cbn [timeOf].
    - rewrite andb_true_iff, ext_le_start, ext_le_end. split.
      + intros [[? ?] ?]. split; [done|]. by exists ms.
      + by intros [? (? & [= <-] & ? & ?)].
    - split.
      + intros [E _]. exfalso. revert E. clear.
        by destruct (if bool_decide _ then _ else _).
      + by intros [_ (? & ? & _)]. }
  split; [done|].
  intros Es En. apply elem_of_nil_inv. intros t (_ & ms & _ & Hs & _)%Helem.
  unfold afterStart in Hs. rewrite decide_False, En in Hs by done.
  by destruct Hs as (? & ? & _).
Qed.
End DateRange.

(** ** Dashboard: the cumulative series *)


Lemma timeDiff_le (a b : JsDate) ta tb :
  a = Some ta → b = Some tb → timeDiff a b ≤ 0 ↔ ta ≤ tb.
Proof. intros -> ->. apply Qcminus_le_0. Qed.

Section CumulativeSeries.
Context `{Host} `{Locale}.



End CumulativeSeries.

(** ** Dashboard: daily statistics *)

Section DailyStats.
Context `{Host} `{Locale}.




End DailyStats.

(** ** Dashboard: brokers and product types *)

Lemma addToBrokerDistribution_bucket acc trade :
  addToBrokerDistribution acc trade
  = bucket Trade.broker initBrokerCount stepBrokerCount acc trade.
Proof.
  unfold addToBrokerDistribution, bucket.
  by rewrite dict_get_set_eq, dict_set_set.
Qed.

Lemma foldl_stepBrokerCount c l :
  let c' := foldl stepBrokerCount c l in
  BrokerCount.name c' = BrokerCount.name c ∧
  BrokerCount.value c' = BrokerCount.value c + num_of_nat (length l).
Proof.
  induction l as [|t l IH] using rev_ind.
  - cbn [foldl length]. rewrite num_of_nat_0. split; [done|ring].
  - cbn zeta in *. rewrite foldl_app. cbn [foldl].
    destruct IH as (IH1 & IH2).
    cbn [stepBrokerCount BrokerCount.name BrokerCount.value].
    rewrite IH1, IH2, length_app. cbn [length]. rewrite Nat.add_1_r, num_of_nat_S.
    split; [done|ring].
Qed.

(** X17. The broker distribution has one entry for each broker that has a
    trade, and none for the others; the value of an entry is the number of
    trades of its broker, never zero, and the values add up to the number of
    trades. *)
Theorem brokerDistribution_counts trades :
  let dist := brokerDistribution trades in
  NoDup (BrokerCount.name <$> dist) ∧
  (∀ b, b ∈ BrokerCount.name <$> dist ↔ b ∈ Trade.broker <$> trades) ∧
  (∀ c, c ∈ dist →
     BrokerCount.value c
     = num_of_nat (length (filter (λ t, Trade.broker t = BrokerCount.name c) trades)) ∧
     0 < BrokerCount.value c) ∧
  sum_with BrokerCount.value dist = num_of_nat (length trades).
Proof.
  intros dist.
  set (d := buckets Trade.broker initBrokerCount stepBrokerCount trades).
  assert (Helem : ∀ k c, (k, c) ∈ d →
     BrokerCount.name c = k ∧
     BrokerCount.value c = num_of_nat (length (filter (λ t, Trade.broker t = k) trades)) ∧
     0 < BrokerCount.value c).
  { intros k c Hin. apply dict_get_elem_Some in Hin; [|apply buckets_NoDup].
    unfold d in Hin. rewrite buckets_get in Hin.
    destruct (filter (λ t, Trade.broker t = k) trades) as [|t0 ts] eqn:F; [done|].
    injection Hin as <-.
    assert (t0 ∈ filter (λ t, Trade.broker t = k) trades) as [Hk _]%list_elem_of_filter
      by (rewrite F; left).
    change (foldl stepBrokerCount _ ts)
      with (foldl stepBrokerCount (initBrokerCount t0) (t0 :: ts)).
    destruct (foldl_stepBrokerCount (initBrokerCount t0) (t0 :: ts)) as (-> & ->).
    cbn [initBrokerCount BrokerCount.name BrokerCount.value].
    split; [done|]. rewrite Qcplus_0_l. split; [done|].
    apply num_of_nat_pos. cbn [length]. lia. }
  assert (Hnames : BrokerCount.name <$> d.*2 = d.*1).
  { induction d as [|[k c] d' IH]; [done|].
    rewrite !fmap_cons. cbn [fst snd]. f_equal.
    - apply (Helem k c). left.
    - apply IH. intros k' c' Hin. apply Helem. by right. }
  assert (Hdist : dist = d.*2).
  { unfold dist, brokerDistribution, Object_values. f_equal.
    apply foldl_ext_eq. intros. apply addToBrokerDistribution_bucket. }
  rewrite Hdist, Hnames.
  split; [apply buckets_NoDup|]. split; [intros b; apply buckets_keys|]. split.
  - intros c ([k c'] & -> & Hin)%list_elem_of_fmap. cbn [snd].
    by destruct (Helem k c' Hin) as (-> & ? & ?).
  - unfold d. rewrite (buckets_sum _ _ _ BrokerCount.value (λ _, 1)) by done.
    clear. induction trades as [|t l IH]; [done|].
    rewrite sum_with_cons, IH. cbn [length]. rewrite num_of_nat_S. ring.
Qed.




(** ** New trade form: adding a strategy *)

Lemma blank_rev_app s1 s2 : blank (String.rev_app s1 s2) = blank s1 && blank s2.
Proof.
  revert s2. induction s1 as [|c s1 IH]; intros s2; [done|].
  cbn [String.rev_app blank]. rewrite IH. cbn [blank].
  by destruct (is_space c), (blank s1), (blank s2).
Qed.

Lemma blank_rev s : blank (String.rev s) = blank s.
Proof. unfold String.rev. rewrite blank_rev_app. cbn [blank]. by destruct (blank s). Qed.

Lemma blank_trimStart s : blank (trimStart s) = blank s.
Proof.
  induction s as [|c s IH]; [done|]. cbn [trimStart blank].
  destruct (is_space c) eqn:E; [done|]. cbn [blank]. by rewrite E.
Qed.

Lemma trimStart_empty s : trimStart s = "" ↔ blank s = true.
Proof.
  induction s as [|c s IH]; [done|]. cbn [trimStart blank].
  by destruct (is_space c).
Qed.

Lemma rev_app_empty s1 s2 : String.rev_app s1 s2 = "" → s1 = "" ∧ s2 = "".
Proof.
  revert s2. induction s1 as [|c s1 IH]; intros s2; [done|].
  cbn [String.rev_app]. by intros [_ ?]%IH.
Qed.

Lemma trim_empty s : trim s = "" ↔ blank s = true.
Proof.
  unfold trim. rewrite <- blank_trimStart, <- blank_rev, <- trimStart_empty. split.
  - unfold String.rev at 1. by intros [? _]%rev_app_empty.
  - by intros ->.
Qed.

(** X19. Confirming a new strategy name does nothing exactly when the name
    is blank.  Otherwise the input is closed and cleared, the strategy the
    form selects is the trimmed name, and that name is a strategy of the
    store afterwards.  In both cases the strategies the store had are kept in
    their order, at most one is added, and a list without duplicates stays
    so. *)
Theorem handleAddStrategy_selects db_ok form st :
  let name := trim (NewTradeState.newStrategyName form) in
  let form' := (handleAddStrategy db_ok form st).1 in
  let st' := (handleAddStrategy db_ok form st).2 in
  (blank (NewTradeState.newStrategyName form) = true → form' = form ∧ st' = st) ∧
  (blank (NewTradeState.newStrategyName form) = false →
     NewTradeState.strategy form' = name ∧
     NewTradeState.newStrategyName form' = "" ∧
     NewTradeState.isAddingStrategy form' = false ∧
     name ∈ strategies st') ∧
  (strategies st' = strategies st ∨ strategies st' = strategies st ++ [name]) ∧
  (NoDup (strategies st) → NoDup (strategies st')).
Proof.
  intros name form' st'. unfold form', st', handleAddStrategy. fold name.
  pose proof (trim_empty (NewTradeState.newStrategyName form)) as Hb. fold name in Hb.
  case_bool_decide as E.
  - assert (Hnb : blank (NewTradeState.newStrategyName form) = false).
    { destruct (blank _); [|done]. by destruct E; apply Hb. }
    rewrite Hnb. cbn [fst snd NewTradeState.strategy NewTradeState.newStrategyName
                      NewTradeState.isAddingStrategy].
    unfold addStrategy. case_bool_decide as Hin; cbn [strategies].
    + repeat split; try done. by left.
    + repeat split; try done.
      * apply elem_of_app. right. left.
      * by right.
      * intros Hnd. apply NoDup_app. split; [done|]. split; [|apply NoDup_singleton].
        by intros x Hx ->%list_elem_of_singleton.
  - assert (Hbl : blank (NewTradeState.newStrategyName form) = true).
    { apply Hb. destruct (decide (name = "")) as [?|?]; [done|by destruct E]. }
    rewrite Hbl. cbn [fst snd]. repeat split; try done. by left.
Qed.

(** ** History: what a group holds *)

Lemma string_app_nil s : "" +:+ s = s.
Proof. reflexivity. Qed.

Lemma string_app_cons c a s : String c a +:+ s = String c (a +:+ s).
Proof. reflexivity. Qed.

Lemma hasUnderscore_sep x y : hasUnderscore (x +:+ "_" +:+ y) = true.
Proof.
  induction x as [|c x IH]; [done|].
  rewrite string_app_cons. cbn [hasUnderscore]. rewrite IH. apply orb_true_r.
Qed.

Lemma split_first_sep a a' r r' :
  hasUnderscore a = false → hasUnderscore a' = false →
  a +:+ "_" +:+ r = a' +:+ "_" +:+ r' → a = a' ∧ r = r'.
Proof.
  revert a'. induction a as [|c a IH]; intros [|c' a'] Ha Ha' E;
    rewrite ?string_app_cons, ?string_app_nil in E; cbn [hasUnderscore] in Ha, Ha'.
  - by injection E as ->.
  - injection E as <- _. by rewrite bool_decide_eq_true_2 in Ha'.
  - injection E as -> _. by rewrite bool_decide_eq_true_2 in Ha.
  - injection E as -> E. apply orb_false_iff in Ha as [_ Ha], Ha' as [_ Ha'].
    by destruct (IH a' Ha Ha' E) as [-> ->].
Qed.

Lemma split_last_sep s s' b b' :
  hasUnderscore b = false → hasUnderscore b' = false →
  s +:+ "_" +:+ b = s' +:+ "_" +:+ b' → s = s' ∧ b = b'.
Proof.
  intros Hb Hb'. revert s'. induction s as [|c s IH]; intros [|c' s'] E;
    rewrite ?string_app_cons, ?string_app_nil in E.
  - by injection E as ->.
  - injection E as _ ->. pose proof (hasUnderscore_sep s' b') as Hc.
    rewrite ?string_app_cons, ?string_app_nil in Hc. congruence.
  - injection E as _ <-. pose proof (hasUnderscore_sep s b) as Hc.
    rewrite ?string_app_cons, ?string_app_nil in Hc. congruence.
  - injection E as -> E. by destruct (IH s' E) as [-> ->].
Qed.

Lemma BrokerName_str_plain b : hasUnderscore (BrokerName_str b) = false.
Proof. by destruct b. Qed.

Lemma BrokerName_str_inj b b' : BrokerName_str b = BrokerName_str b' → b = b'.
Proof. by destruct b, b'. Qed.

Section GroupMembers.
Context `{Host}.

Lemma groupKey_inj t t' :
  plainDay t → plainDay t' →
  groupKey t = groupKey t' ↔
  dayOf (Trade.date t) = dayOf (Trade.date t') ∧ Trade.symbol t = Trade.symbol t' ∧
  Trade.broker t = Trade.broker t'.
Proof.
  intros Ht Ht'. unfold groupKey. fold (dayOf (Trade.date t)) (dayOf (Trade.date t')).
  split.
  - intros E. apply split_first_sep in E as [Ed E]; [|done..].
    apply split_last_sep in E as [Es Eb]; [|apply BrokerName_str_plain..].
    by apply BrokerName_str_inj in Eb.
  - by intros (-> & -> & ->).
Qed.

Lemma foldl_stepGroup_row g l :
  let g' := foldl stepGroup g l in
  GroupedTrade.symbol g' = GroupedTrade.symbol g ∧
  GroupedTrade.broker g' = GroupedTrade.broker g.
Proof.
  induction l as [|t l IH] using rev_ind; [done|].
  cbn zeta in *. rewrite foldl_app. cbn [foldl]. by destruct IH as [<- <-].
Qed.

Lemma groupTrades_first l g :
  g ∈ groupTrades l →
  ∃ t0, t0 ∈ l ∧ GroupedTrade.id g = groupKey t0 ∧
        head (GroupedTrade.trades g) = Some t0 ∧
        GroupedTrade.date g = Trade.date t0 ∧
        GroupedTrade.symbol g = Trade.symbol t0 ∧
        GroupedTrade.broker g = BrokerName_str (Trade.broker t0).
Proof.
  rewrite groupTrades_buckets.
  intros ([k g'] & -> & Hin)%list_elem_of_fmap. cbn [snd].
  apply dict_get_elem_Some in Hin; [|apply buckets_NoDup].
  rewrite buckets_get in Hin.
  destruct (filter (λ t, groupKey t = k) l) as [|t0 ts] eqn:F; [done|].
  injection Hin as <-.
  assert (t0 ∈ filter (λ t, groupKey t = k) l) as [Hk Hl]%list_elem_of_filter
    by (rewrite F; left).
  exists t0. split; [done|].
  change (foldl stepGroup _ ts) with (foldl stepGroup (initGroup t0) (t0 :: ts)).
  destruct (foldl_stepGroup (initGroup t0) (t0 :: ts)) as (-> & -> & -> & _).
  destruct (foldl_stepGroup_row (initGroup t0) (t0 :: ts)) as (-> & ->).
  by cbn [initGroup GroupedTrade.id GroupedTrade.trades GroupedTrade.date
          GroupedTrade.symbol GroupedTrade.broker app head].
Qed.

(** X20. What a row of the history holds.  When the days of the trades are
    written without an underscore, a trade that passes the filters is in a
    group exactly when it has the local day, the symbol and the broker of
    the group; the date, symbol and broker a group shows are those of its
    first trade, and two groups never share day, symbol and broker. *)
Theorem group_members f sortField sortDirection trades :
  Forall plainDay trades →
  let groups := groupedTrades f sortField sortDirection trades in
  (∀ g t, g ∈ groups → t ∈ filteredTrades f trades →
     t ∈ GroupedTrade.trades g ↔
     dayOf (Trade.date t) = dayOf (GroupedTrade.date g) ∧
     Trade.symbol t = GroupedTrade.symbol g ∧
     BrokerName_str (Trade.broker t) = GroupedTrade.broker g) ∧
  (∀ g, g ∈ groups →
     ∃ t0, head (GroupedTrade.trades g) = Some t0 ∧
           GroupedTrade.date g = Trade.date t0 ∧
           GroupedTrade.symbol g = Trade.symbol t0 ∧
           GroupedTrade.broker g = BrokerName_str (Trade.broker t0)) ∧
  NoDup ((λ g, (dayOf (GroupedTrade.date g), GroupedTrade.symbol g, GroupedTrade.broker g))
           <$> groups).
Proof.
  intros Hplain groups.
  assert (Hperm : groups ≡ₚ groupTrades (filteredTrades f trades))
    by apply Array_sort_Permutation.
  assert (Hpl : ∀ t, t ∈ filteredTrades f trades → plainDay t).
  { intros t [Ht _]%filteredTrades_elem. by eapply Forall_forall in Hplain. }
  assert (Hrow : ∀ g, g ∈ groupTrades (filteredTrades f trades) →
     ∃ t0, t0 ∈ filteredTrades f trades ∧ GroupedTrade.id g = groupKey t0 ∧
           (dayOf (GroupedTrade.date g), GroupedTrade.symbol g, GroupedTrade.broker g)
           = (dayOf (Trade.date t0), Trade.symbol t0, BrokerName_str (Trade.broker t0))).
  { intros g (t0 & ? & ? & _ & -> & -> & ->)%groupTrades_first. by exists t0. }
  split; [|split].
  - intros g t Hg Ht. rewrite Hperm in Hg.
    destruct (groupTrades_first _ _ Hg) as (t0 & Ht0 & Hid & _ & -> & -> & ->).
    apply groupTrades_elem in Hg as (-> & _). rewrite list_elem_of_filter, Hid.
    rewrite (groupKey_inj t t0) by auto. split.
    + by intros [(-> & -> & ->) _].
    + intros (-> & -> & ->%BrokerName_str_inj). done.
  - intros g Hg. rewrite Hperm in Hg.
    destruct (groupTrades_first _ _ Hg) as (t0 & _ & _ & ? & ? & ? & ?). by exists t0.
  - rewrite Hperm.
    pose proof (groupTrades_ids (filteredTrades f trades)) as Hids.
    pose proof (buckets_NoDup groupKey initGroup stepGroup (filteredTrades f trades)) as Hnd.
    rewrite <- Hids in Hnd. clear Hids Hperm.
    induction (groupTrades (filteredTrades f trades)) as [|g gs IH]; [constructor|].
    rewrite fmap_cons in *. apply NoDup_cons in Hnd as [Hg Hnd]. constructor.
    + intros (g' & E & Hg')%list_elem_of_fmap. apply Hg.
      apply list_elem_of_fmap. exists g'. split; [|done].
      destruct (Hrow g) as (t0 & Ht0 & -> & E0); [left|].
      destruct (Hrow g') as (t0' & Ht0' & -> & E0'); [by right|].
      rewrite E0, E0' in E. injection E as Ed Es Eb%BrokerName_str_inj.
      apply groupKey_inj; auto.
    + apply IH; [|done]. intros g' Hg'. apply Hrow. by right.
Qed.
End GroupMembers.

Section GroupMembersExample.
Local Existing Instance UtcHost.host.

(** The rows of the example book: two trades of one day in the first drawn
    group, and three distinct rows. *)
Lemma group_members_example :
  Forall plainDay exampleBook ∧
  NoDup ((λ g, (dayOf (GroupedTrade.date g), GroupedTrade.symbol g, GroupedTrade.broker g))
           <$> groupedTrades noFilters sf_date desc exampleBook).
Proof.
  assert (Hplain : Forall plainDay exampleBook).
  { repeat constructor; unfold plainDay; vm_compute; reflexivity. }
  split; [exact Hplain|].
  exact (proj2 (proj2 (group_members noFilters sf_date desc exampleBook Hplain))).
Defined.
End GroupMembersExample.

(** ** Analysis: the tables by symbol and by strategy *)





Lemma pow10_pos d : 0 < pow10 d.
Proof.
  unfold pow10. change 0 with (num_of_Z 0). apply num_of_Z_lt.
  apply Z.pow_pos_nonneg; lia.
Qed.



